(** * Iftari Dibe: the vote toggle, the prayer-time rollover, pagination
      and the admin prompts of [App]

    A shallow embedding of the event handlers and effects of the single
    React component [App], with the document store, the local vote record
    and the component state passed explicitly. *)

From Stdlib Require Import ZArith Lia Ascii.
From stdpp Require Import gmap strings list fin_maps pretty.

(** ** Votes: [handleVote] over the [iftar_events] collection *)

Module Votes.

Local Open Scope Z_scope.

(** The string literal type ['true' | 'false']. *)
Inductive VoteType : Set := VTrue | VFalse.

#[global] Instance VoteType_eq_dec : EqDecision VoteType.
Proof. solve_decision. Defined.

(** ['everyday' | 'specific_days']. *)
Inductive ScheduleType : Set := everyday | specific_days_only.

(** [interface IftarEvent]; the [id] is the key of the document in the
    collection, and the two counters are integers. *)
Record IftarEvent : Set := mkIftarEvent {
  mosque_name : string;
  location : string;
  date : option string;
  description : option string;
  schedule_type : ScheduleType;
  specific_days : option (list string);
  true_votes : Z;
  false_votes : Z
}.

(** The two keys [handleVote] computes:
    [type === 'true' ? 'true_votes' : 'false_votes']. *)
Inductive VoteField : Set := F_true_votes | F_false_votes.

#[global] Instance VoteField_eq_dec : EqDecision VoteField.
Proof. solve_decision. Defined.

Definition voteField (type : VoteType) : VoteField :=
  match type with VTrue => F_true_votes | VFalse => F_false_votes end.

(** An object literal with computed keys, every value an [increment(n)]:
    the keys in insertion order, a repeated key keeps its place and takes
    the later value. *)
Fixpoint obj_set (k : VoteField) (n : Z) (o : list (VoteField * Z))
  : list (VoteField * Z) :=
  match o with
  | [] => [(k, n)]
  | (k', n') :: o' =>
      if decide (k' = k) then (k, n) :: o' else (k', n') :: obj_set k n o'
  end.

(** [increment(n)] applied to one field of a document. *)
Definition increment (ev : IftarEvent) (kn : VoteField * Z) : IftarEvent :=
  match fst kn with
  | F_true_votes =>
      mkIftarEvent (mosque_name ev) (location ev) (date ev) (description ev)
        (schedule_type ev) (specific_days ev)
        (true_votes ev + snd kn) (false_votes ev)
  | F_false_votes =>
      mkIftarEvent (mosque_name ev) (location ev) (date ev) (description ev)
        (schedule_type ev) (specific_days ev)
        (true_votes ev) (false_votes ev + snd kn)
  end.

(** [updateDoc(doc(db, "iftar_events", id), data)]: the promise rejects
    ([None]) when the document does not exist, otherwise every increment of
    [data] is applied to it in one write. *)
Definition updateDoc (db : gmap string IftarEvent) (id : string)
    (data : list (VoteField * Z)) : option (gmap string IftarEvent) :=
  match db !! id with
  | None => None
  | Some ev => Some (<[id := foldl increment ev data]> db)
  end.

(** [userVotes] is a plain object used as a map: the [gmap] holds its own
    properties (what the spread copies, [delete] removes and
    [JSON.stringify] writes), and a read [userVotes[id]] that finds no own
    property goes on to [Object.prototype]. These are the names found
    there; each names a function or an object, so the value read is truthy
    and is neither of the two strings. *)
Definition Object_prototype : list string :=
  ["constructor"; "hasOwnProperty"; "isPrototypeOf"; "propertyIsEnumerable";
   "toLocaleString"; "toString"; "valueOf"; "__proto__";
   "__defineGetter__"; "__defineSetter__"; "__lookupGetter__";
   "__lookupSetter__"].

(** What a read of [userVotes[id]] gives. *)
Inductive Property : Set :=
| Own (vote : VoteType)
| Inherited
| Undefined.

#[global] Instance Property_eq_dec : EqDecision Property.
Proof. solve_decision. Defined.

Definition read (userVotes : gmap string VoteType) (id : string) : Property :=
  match userVotes !! id with
  | Some vote => Own vote
  | None => if bool_decide (id ∈ Object_prototype) then Inherited else Undefined
  end.

(** [currentVote === 'true' ? 'true_votes' : 'false_votes']. *)
Definition currentField (currentVote : Property) : VoteField :=
  match currentVote with
  | Own VTrue => F_true_votes
  | _ => F_false_votes
  end.

(** [handleVote(id, type)] on the collection [db] and this page's
    [userVotes]; a rejected write lands in the [catch], which only logs, so
    both are returned as they were. *)
Definition handleVote (db : gmap string IftarEvent)
    (userVotes : gmap string VoteType) (id : string) (type : VoteType)
  : gmap string IftarEvent * gmap string VoteType :=
  let currentVote := read userVotes id in
  if decide (currentVote = Own type) then
    (* Withdraw vote if clicking the same button *)
    match updateDoc db id (obj_set (voteField type) (-1) []) with
    | Some db' => (db', delete id userVotes)
    | None => (db, userVotes)
    end
  else
    match currentVote with
    | Undefined =>
        (* New vote *)
        match updateDoc db id (obj_set (voteField type) 1 []) with
        | Some db' => (db', <[id := type]> userVotes)
        | None => (db, userVotes)
        end
    | _ =>
        (* Change vote if clicking the other button: any truthy read *)
        match updateDoc db id
                (obj_set (voteField type) 1
                   (obj_set (currentField currentVote) (-1) []))
        with
        | Some db' => (db', <[id := type]> userVotes)
        | None => (db, userVotes)
        end
    end.

(** A run of clicks of one page on one event, each handled to the end
    (write, then [setUserVotes] and re-render) before the next. *)
Definition handleVotes (db : gmap string IftarEvent)
    (userVotes : gmap string VoteType) (id : string) (types : list VoteType)
  : gmap string IftarEvent * gmap string VoteType :=
  foldl (fun s type => handleVote (fst s) (snd s) id type) (db, userVotes) types.

(** The counter of an event that belongs to a choice. *)
Definition counter (type : VoteType) (ev : IftarEvent) : Z :=
  match type with VTrue => true_votes ev | VFalse => false_votes ev end.

Definition other (type : VoteType) : VoteType :=
  match type with VTrue => VFalse | VFalse => VTrue end.

(** Two documents that differ at most in the two counters. *)
Definition same_listing (ev ev' : IftarEvent) : Prop :=
  mosque_name ev' = mosque_name ev /\ location ev' = location ev /\
  date ev' = date ev /\ description ev' = description ev /\
  schedule_type ev' = schedule_type ev /\ specific_days ev' = specific_days ev.

(** A document with its counters moved by [a] and [b]. *)
Definition shift (a b : Z) (ev : IftarEvent) : IftarEvent :=
  mkIftarEvent (mosque_name ev) (location ev) (date ev) (description ev)
    (schedule_type ev) (specific_days ev)
    (true_votes ev + a) (false_votes ev + b).

(** The choice left standing by a run of clicks, read off the run itself.
    A click toggles off when it repeats the choice that stands, so the
    clicks that close the run and agree with the last one cancel in pairs:
    the last choice stands when that closing block is odd, and the last
    click was a toggle-off, leaving nothing, when it is even (nothing
    stands after the empty run either). *)
Fixpoint run_length (c : VoteType) (l : list VoteType) : nat :=
  match l with
  | x :: l' => if decide (x = c) then S (run_length c l') else O
  | [] => O
  end.

Definition last_standing (types : list VoteType) : option VoteType :=
  match rev types with
  | [] => None
  | c :: before => if Nat.even (run_length c before) then Some c else None
  end.

(** The record a click leaves for the event, from the record before it. *)
Definition toggle (record : option VoteType) (type : VoteType)
  : option VoteType :=
  if decide (record = Some type) then None else Some type.

(** What one page has added to a counter: 1 while its record holds that
    choice for the event, 0 otherwise. *)
Definition holds (type : VoteType) (id : string)
    (userVotes : gmap string VoteType) : Z :=
  if decide (userVotes !! id = Some type) then 1 else 0.

(** The event of the worked example: counters 2 and 1. *)
Definition ev21 : IftarEvent :=
  mkIftarEvent "Boro Masjid" "Kushtia" None None everyday None 2 1.

(** [n] times on and off again with the true button. *)
Definition trueCycles (n : nat) : list VoteType :=
  concat (replicate n [VTrue; VTrue]).

End Votes.

(** ** The shared collection with several pages voting on it *)

Module Community.

Import Votes.
Local Open Scope Z_scope.

(** The form state [newEvent] of the add dialog. *)
Record NewEvent : Set := mkNewEvent {
  new_mosque_name : string;
  new_location : string;
  new_date : string;
  new_description : string;
  new_schedule_type : ScheduleType;
  new_specific_days : list string
}.

(** The collection, every id [addDoc] has handed out so far (auto-ids are
    never reused), and the [userVotes] of each page that is open. *)
Record World : Type := mkWorld {
  db : gmap string IftarEvent;
  issued : gset string;
  devices : list (gmap string VoteType)
}.

Definition init : World := mkWorld ∅ ∅ [].

(** The document [handleAddEvent] writes: the form with both counters 0,
    the empty optional fields removed. ([created_at] only orders the
    snapshot and is left out.) *)
Definition eventData (newEvent : NewEvent) : IftarEvent :=
  mkIftarEvent (new_mosque_name newEvent) (new_location newEvent)
    (if decide (new_date newEvent = "") then None
     else Some (new_date newEvent))
    (if decide (new_description newEvent = "") then None
     else Some (new_description newEvent))
    (new_schedule_type newEvent) (Some (new_specific_days newEvent))
    0 0.

(** [handleAddEvent] with Firebase configured: nothing is written without
    a name and a location; [id] is the id [addDoc] picks. *)
Definition handleAddEvent (w : World) (id : string) (newEvent : NewEvent)
  : World :=
  if decide (new_mosque_name newEvent = "" \/ new_location newEvent = "")
  then w
  else mkWorld (<[id := eventData newEvent]> (db w)) ({[id]} ∪ issued w)
         (devices w).

(** [handleDelete] once confirmed: [deleteDoc]. *)
Definition handleDelete (w : World) (id : string) : World :=
  mkWorld (delete id (db w)) (issued w) (devices w).

(** Page [d] clicks a vote button and the handler runs to its end. *)
Definition vote (w : World) (d : nat) (id : string) (type : VoteType)
  : World :=
  match devices w !! d with
  | Some userVotes =>
      let r := handleVote (db w) userVotes id type in
      mkWorld (fst r) (issued w) (<[d := snd r]> (devices w))
  | None => w
  end.

(** A page opens in a browser that has nothing stored: the mount effect
    finds no item and [userVotes] stays [{}]. *)
Definition join (w : World) : World :=
  mkWorld (db w) (issued w) (devices w ++ [∅]).

(** A further page opens in the browser of page [d], which was the last
    one there to save: the mount effect loads what page [d] saved, a copy
    of its record, and never reads the storage again. *)
Definition openTab (w : World) (d : nat) : World :=
  match devices w !! d with
  | Some userVotes => mkWorld (db w) (issued w) (devices w ++ [userVotes])
  | None => w
  end.

(** Page [d] is reloaded after its browser lost the stored record. *)
Definition clearStorage (w : World) (d : nat) : World :=
  mkWorld (db w) (issued w) (<[d := ∅]> (devices w)).

Inductive step : World -> World -> Prop :=
| step_add w id newEvent :
    id ∉ issued w -> step w (handleAddEvent w id newEvent)
| step_delete w id : step w (handleDelete w id)
| step_vote w d id type : step w (vote w d id type)
| step_join w : step w (join w)
| step_open w d : step w (openTab w d)
| step_clear w d : step w (clearStorage w d).

Inductive reachable : World -> Prop :=
| reachable_init : reachable init
| reachable_step w w' : reachable w -> step w w' -> reachable w'.

(** The histories in which every page starts from a record of its own
    (no page opened on what another page saved) and no event carries the
    name of an inherited member as its id. *)
Inductive step_apart : World -> World -> Prop :=
| apart_add w id newEvent :
    id ∉ issued w -> id ∉ Object_prototype ->
    step_apart w (handleAddEvent w id newEvent)
| apart_delete w id : step_apart w (handleDelete w id)
| apart_vote w d id type : step_apart w (vote w d id type)
| apart_join w : step_apart w (join w)
| apart_clear w d : step_apart w (clearStorage w d).

Inductive reachable_apart : World -> Prop :=
| reachable_apart_init : reachable_apart init
| reachable_apart_step w w' :
    reachable_apart w -> step_apart w w' -> reachable_apart w'.

(** The votes the pages hold for one choice on one event. *)
Definition tally (type : VoteType) (id : string)
    (ds : list (gmap string VoteType)) : Z :=
  foldr (fun userVotes n => holds type id userVotes + n) 0 ds.

(** Every id in use was handed out by [addDoc]. *)
Record tracked (w : World) : Prop := mkTracked {
  events_issued : forall id, is_Some (db w !! id) -> id ∈ issued w;
  records_issued : forall userVotes id,
    userVotes ∈ devices w -> is_Some (userVotes !! id) -> id ∈ issued w
}.

(** The invariant behind the non-negative counters: every record a page
    holds is counted, and no event id is the name of an inherited
    member. *)
Record consistent (w : World) : Prop := mkConsistent {
  counters_cover : forall id ev type,
    db w !! id = Some ev -> tally type id (devices w) <= counter type ev;
  events_plain : forall id, is_Some (db w !! id) -> id ∉ Object_prototype;
  consistent_tracked : tracked w
}.

(** A small history: an event is added, a page opens, votes for true and
    takes the vote back. *)
Definition sampleForm : NewEvent :=
  mkNewEvent "Boro Masjid" "Kushtia" "" "" everyday [].

Definition sampleWorld : World :=
  vote (vote (join (handleAddEvent init "E" sampleForm)) 0 "E" VTrue)
       0 "E" VTrue.

(** Two pages of one browser: the first votes for true, the second opens
    on the saved record, and then each takes the vote back. *)
Definition twoTabs : World :=
  vote (vote (openTab
                (vote (join (handleAddEvent init "E" sampleForm)) 0 "E" VTrue)
                0)
          0 "E" VTrue)
       1 "E" VTrue.

End Community.

(** ** Prayer times: the selection inside [fetchTimings] *)

Module Timings.

Local Open Scope Z_scope.

(** [interface TimingInfo] and [interface TimingsState]. *)
Record TimingInfo : Set := mkTimingInfo {
  time : string;
  date : string;
  readableDate : string
}.

Record TimingsState : Set := mkTimingsState {
  sahri : option TimingInfo;
  iftar : option TimingInfo
}.

(** The parts of a complete response body the component reads:
    [data.timings.Fajr], [data.timings.Maghrib] and [data.date.readable]. *)
Record DayData : Set := mkDayData {
  Fajr : string;
  Maghrib : string;
  readable : string
}.

(** [now > d] on [Date] objects compares their time values; a [Date] is
    its time value in milliseconds, [None] an Invalid Date, against which
    every comparison is false. *)
Definition date_gt (now : Z) (d : option Z) : bool :=
  match d with
  | Some d => d <? now
  | None => false
  end.

Section PlatformDate.

(** [parseTime(timeStr, baseDate)]: the instant of the clock time
    [timeStr] on the local day of [baseDate], as the platform's [Date]
    computes it. *)
Variable parseTime : string -> Z -> option Z.

(** Lines 167-191 on two complete bodies: [now] is read after both
    bodies arrived, [today] before the requests were sent. *)
Definition selectTimings (now today : Z) (dataToday dataTomorrow : DayData)
  : TimingsState :=
  let sahriToday := parseTime (Fajr dataToday) today in
  let iftarToday := parseTime (Maghrib dataToday) today in
  let finalSahri :=
    if date_gt now sahriToday
    then mkTimingInfo (Fajr dataTomorrow) (readable dataTomorrow)
           (readable dataTomorrow)
    else mkTimingInfo (Fajr dataToday) (readable dataToday)
           (readable dataToday) in
  let finalIftar :=
    if date_gt now iftarToday
    then mkTimingInfo (Maghrib dataTomorrow) (readable dataTomorrow)
           (readable dataTomorrow)
    else mkTimingInfo (Maghrib dataToday) (readable dataToday)
           (readable dataToday) in
  mkTimingsState (Some finalSahri) (Some finalIftar).

End PlatformDate.

(** The entry a day's response gives for each boundary. *)
Definition sahriOf (d : DayData) : TimingInfo :=
  mkTimingInfo (Fajr d) (readable d) (readable d).

Definition iftarOf (d : DayData) : TimingInfo :=
  mkTimingInfo (Maghrib d) (readable d) (readable d).

(** A sample day and the day after it, with a clock that knows the two
    times of the sample day ([baseDate] taken at its midnight). *)
Definition day1 : DayData := mkDayData "04:50" "18:05" "01 Mar 2026".
Definition day2 : DayData := mkDayData "04:49" "18:06" "02 Mar 2026".

Definition sampleClock (timeStr : string) (baseDate : Z) : option Z :=
  if decide (timeStr = "04:50") then Some (baseDate + 17400000)
  else if decide (timeStr = "18:05") then Some (baseDate + 65100000)
  else None.

End Timings.

(** ** Prayer times: the bodies as they arrive, and [fetchTimings] *)

Module Fetch.

Local Open Scope Z_scope.

(** A response body as parsed: any object or member the component reads
    may be missing, and reads as [undefined] ([None]); a member that is
    there has the type the service documents. *)
Record TimingsObject : Set := mkTimingsObject {
  o_Fajr : option string;
  o_Maghrib : option string
}.

Record DateObject : Set := mkDateObject {
  o_readable : option string
}.

Record DataObject : Set := mkDataObject {
  o_timings : option TimingsObject;
  o_date : option DateObject
}.

(** What one [fetch] and its [json()] come to: the fetch rejects, the body
    is not JSON (or is [null], whose [code] cannot be read: both end in the
    [catch]), or a body with its [code] (a body without one compares like
    any code other than 200) and its [data]. *)
Inductive Fetched : Set :=
| Rejected
| NotJson
| Body (code : Z) (data : option DataObject).

(** A stored [TimingInfo] as it is at run time: a member is [undefined]
    when the body had none. *)
Record Entry : Set := mkEntry {
  e_time : option string;
  e_date : option string;
  e_readableDate : option string
}.

(** The [timings] state: each boundary [null] or an entry. *)
Record Stored : Set := mkStored {
  s_sahri : option Entry;
  s_iftar : option Entry
}.

(** The two pieces of component state involved. *)
Record View : Set := mkView {
  timings : Stored;
  loadingTimings : bool
}.

(** [useState({ sahri: null, iftar: null })] and [useState(true)]. *)
Definition firstLoad : View := mkView (mkStored None None) true.

(** What a card shows for one boundary: ['...'] while loading, the stored
    entry, or the ['--:--'] placeholder. *)
Inductive Shown : Set :=
| ShownLoading
| ShownPlaceholder
| ShownWindow (e : Entry).

Definition shown (v : View) (e : option Entry) : Shown :=
  if loadingTimings v then ShownLoading
  else match e with
       | Some e => ShownWindow e
       | None => ShownPlaceholder
       end.

(** A complete body, and a selection, seen as what arrives and what is
    stored. *)
Definition complete (d : Timings.DayData) : DataObject :=
  mkDataObject
    (Some (mkTimingsObject (Some (Timings.Fajr d)) (Some (Timings.Maghrib d))))
    (Some (mkDateObject (Some (Timings.readable d)))).

Definition entry (t : Timings.TimingInfo) : Entry :=
  mkEntry (Some (Timings.time t)) (Some (Timings.date t))
    (Some (Timings.readableDate t)).

Definition stored (t : Timings.TimingsState) : Stored :=
  mkStored (entry <$> Timings.sahri t) (entry <$> Timings.iftar t).

Section PlatformDate.

Variable parseTime : string -> Z -> option Z.

(** One branch of a conditional of lines 180-186:
    [{ time: t.X, date: d.readable, readableDate: d.readable }]; reading a
    member of an object that is [undefined] throws ([None]). *)
Definition literal (member : TimingsObject -> option string)
    (t : option TimingsObject) (d : option DateObject) : option Entry :=
  match t, d with
  | Some t, Some d => Some (mkEntry (member t) (o_readable d) (o_readable d))
  | _, _ => None
  end.

(** Lines 162-191 inside the [try], [None] when anything throws:
    [.data.timings] needs [data]; [parseTime] reads [tToday.Fajr] and
    [tToday.Maghrib] and splits them, so it needs both strings; of the two
    branches of each conditional only the one taken is evaluated. *)
Definition selected (now today : Z) (dataToday dataTomorrow : option DataObject)
  : option Stored :=
  match dataToday, dataTomorrow with
  | Some dataToday, Some dataTomorrow =>
      let tToday := o_timings dataToday in
      let tTomorrow := o_timings dataTomorrow in
      let dToday := o_date dataToday in
      let dTomorrow := o_date dataTomorrow in
      match tToday with
      | Some timingsToday =>
          match o_Fajr timingsToday, o_Maghrib timingsToday with
          | Some fajr, Some maghrib =>
              let sahriToday := parseTime fajr today in
              let iftarToday := parseTime maghrib today in
              let finalSahri :=
                if Timings.date_gt now sahriToday
                then literal o_Fajr tTomorrow dTomorrow
                else literal o_Fajr tToday dToday in
              let finalIftar :=
                if Timings.date_gt now iftarToday
                then literal o_Maghrib tTomorrow dTomorrow
                else literal o_Maghrib tToday dToday in
              match finalSahri, finalIftar with
              | Some finalSahri, Some finalIftar =>
                  Some (mkStored (Some finalSahri) (Some finalIftar))
              | _, _ => None
              end
          | _, _ => None
          end
      | None => None
      end
  | _, _ => None
  end.

(** One run of [fetchTimings]. A rejected fetch, a body that is not JSON
    and a read that throws end in the [catch]; a [code] other than 200
    skips the [if]; [finally] clears the loading flag in every case. *)
Definition fetchTimings (v : View) (today now : Z)
    (resToday resTomorrow : Fetched) : View :=
  let timings' :=
    match resToday, resTomorrow with
    | Body codeToday dataToday, Body codeTomorrow dataTomorrow =>
        if decide (codeToday = 200 /\ codeTomorrow = 200) then
          match selected now today dataToday dataTomorrow with
          | Some fresh => fresh
          | None => timings v
          end
        else timings v
    | _, _ => timings v
    end in
  mkView timings' false.

End PlatformDate.

(** A fetch that failed: the service was not reached, or it answered with
    something other than a success. *)
Definition failed (r : Fetched) : Prop :=
  match r with
  | Rejected | NotJson => True
  | Body code _ => code <> 200
  end.

(** Two bodies that are both successes and complete. *)
Definition succeeded (resToday resTomorrow : Fetched)
    (dataToday dataTomorrow : Timings.DayData) : Prop :=
  resToday = Body 200 (Some (complete dataToday)) /\
  resTomorrow = Body 200 (Some (complete dataTomorrow)).

End Fetch.

(** ** Pagination of the event list *)

Module Pagination.

Local Open Scope Z_scope.

Definition itemsPerPage : Z := 6.

(** [Math.ceil(a / b)] for a length [a] and a positive [b] (exact on the
    integers a list length can take). *)
Definition Math_ceil_div (a b : Z) : Z :=
  if a mod b =? 0 then a / b else a / b + 1.

(** [Math.ceil(events.length / itemsPerPage)]. *)
Definition totalPages (length : nat) : Z :=
  Math_ceil_div (Z.of_nat length) itemsPerPage.

(** The effect on [[events.length, currentPage]]: the page it leaves. *)
Definition clampPage (length : nat) (currentPage : Z) : Z :=
  let totalPages := totalPages length in
  if (totalPages <? currentPage) && (0 <? totalPages) then totalPages
  else currentPage.

(** [Array.prototype.slice(begin, end)]. *)
Definition slice_index (len k : Z) : Z :=
  if k <? 0 then Z.max (len + k) 0 else Z.min k len.

Definition slice {A : Type} (l : list A) (b e : Z) : list A :=
  let len := Z.of_nat (length l) in
  let from := slice_index len b in
  let to := slice_index len e in
  take (Z.to_nat (to - from)) (drop (Z.to_nat from) l).

(** [events.slice((currentPage - 1) * itemsPerPage,
    currentPage * itemsPerPage)]. *)
Definition currentEvents {A : Type} (events : list A) (currentPage : Z)
  : list A :=
  slice events ((currentPage - 1) * itemsPerPage) (currentPage * itemsPerPage).

(** The three click handlers of the page bar. *)
Definition prevPage (prev : Z) : Z := Z.max (prev - 1) 1.
Definition nextPage (totalPages prev : Z) : Z := Z.min (prev + 1) totalPages.
Definition gotoPage (i : nat) : Z := Z.of_nat i + 1.

(** The list length and the page, and what can happen to them: a
    snapshot replaces the list, or one of the buttons is clicked. *)
Record Pager : Set := mkPager {
  events_length : nat;
  currentPage : Z
}.

Inductive PagerEvent : Set :=
| Snapshot (length : nat)
| ClickPrev
| ClickNext
| ClickPage (i : nat).

(** [useState([])] and [useState(1)]. *)
Definition pager0 : Pager := mkPager 0 1.

(** The page bar is rendered only when [totalPages > 1]; Prev is disabled
    on page 1, Next on the last page, and the numbered buttons are those
    of [[...Array(totalPages)]]. The effect runs after every change. *)
Definition pagerStep (s : Pager) (e : PagerEvent) : Pager :=
  let n := events_length s in
  let p := currentPage s in
  let tp := totalPages n in
  match e with
  | Snapshot n' => mkPager n' (clampPage n' p)
  | ClickPrev =>
      if (1 <? tp) && negb (p =? 1) then mkPager n (clampPage n (prevPage p))
      else s
  | ClickNext =>
      if (1 <? tp) && negb (p =? tp)
      then mkPager n (clampPage n (nextPage tp p))
      else s
  | ClickPage i =>
      if (1 <? tp) && (Z.of_nat i <? tp)
      then mkPager n (clampPage n (gotoPage i))
      else s
  end.

Definition runPager (es : list PagerEvent) : Pager := foldl pagerStep pager0 es.

End Pagination.

(** ** The admin prompts *)

Module Admin.

(** The admin flag and the password held by the component, and the
    [password] field of the [settings/admin_config] document. *)
Record AdminState : Set := mkAdminState {
  isAdmin : bool;
  adminPassword : string;
  admin_config : option string
}.

(** What the user sees while a handler runs: a [window.prompt] with the
    answer given ([None] for Cancel), or a [window.alert]. *)
Inductive Dialog : Set :=
| Prompt (message : string) (answer : option string)
| Alert (message : string).

(** [toggleAdmin]; [pass] is the answer to the prompt, which is asked only
    when not logged in. *)
Definition toggleAdmin (s : AdminState) (pass : option string)
  : AdminState * list Dialog :=
  if isAdmin s then
    (mkAdminState false (adminPassword s) (admin_config s), [])
  else if decide (pass = Some (adminPassword s)) then
    (mkAdminState true (adminPassword s) (admin_config s),
     [Prompt "Enter Admin Password:" pass; Alert "Admin Login Successful!"])
  else if decide (pass <> None) then
    (s, [Prompt "Enter Admin Password:" pass; Alert "Incorrect password!"])
  else (s, [Prompt "Enter Admin Password:" pass]).

(** [!newPass]: Cancel or the empty string. *)
Definition falsy (a : option string) : bool :=
  match a with
  | None => true
  | Some a => if decide (a = "") then true else false
  end.

(** [handleChangePassword]; [newPass] and [confirmPass] are the answers the
    user has ready for the two prompts, [setDoc_ok] whether the store
    accepts the write. *)
Definition handleChangePassword (s : AdminState)
    (newPass confirmPass : option string) (setDoc_ok : bool)
  : AdminState * list Dialog :=
  if falsy newPass then (s, [Prompt "Enter New Admin Password:" newPass])
  else if decide (newPass <> confirmPass) then
    (s, [Prompt "Enter New Admin Password:" newPass;
         Prompt "Confirm New Admin Password:" confirmPass;
         Alert "Passwords do not match!"])
  else
    match newPass, setDoc_ok with
    | Some np, true =>
        (mkAdminState (isAdmin s) np (Some np),
         [Prompt "Enter New Admin Password:" newPass;
          Prompt "Confirm New Admin Password:" confirmPass;
          Alert "Password changed successfully!"])
    | _, _ =>
        (s, [Prompt "Enter New Admin Password:" newPass;
             Prompt "Confirm New Admin Password:" confirmPass;
             Alert "Failed to change password. Check permissions."])
    end.

(** The alerts of a run, in order. *)
Definition alerts (ds : list Dialog) : list string :=
  omap (fun d => match d with Alert m => Some m | Prompt _ _ => None end) ds.

(** The answers given to the prompts of a run, in order. *)
Definition entries (ds : list Dialog) : list (option string) :=
  omap (fun d => match d with Prompt _ a => Some a | Alert _ => None end) ds.

(** The state the page starts in: not logged in, the default password. *)
Definition admin0 : AdminState :=
  mkAdminState false "admin123" (Some "admin123").

End Admin.

(** ** A click in closed form *)

Module VoteAlgebra.

Import Votes.
Local Open Scope Z_scope.

(** The update object a click writes, from what the read gave. *)
Definition voteData (currentVote : Property) (type : VoteType)
  : list (VoteField * Z) :=
  if decide (currentVote = Own type) then obj_set (voteField type) (-1) []
  else match currentVote with
       | Undefined => obj_set (voteField type) 1 []
       | _ => obj_set (voteField type) 1
                (obj_set (currentField currentVote) (-1) [])
       end.

(** The document after a click that found it. *)
Definition moved (currentVote : Property) (type : VoteType)
    (ev : IftarEvent) : IftarEvent :=
  foldl increment ev (voteData currentVote type).

(** The vote record after a click whose write went through. *)
Definition recorded (userVotes : gmap string VoteType) (id : string)
    (type : VoteType) : gmap string VoteType :=
  if decide (read userVotes id = Own type) then delete id userVotes
  else <[id := type]> userVotes.

(** The collection after a click by a page whose read gave
    [currentVote]. *)
Definition dbAfter (db : gmap string IftarEvent) (id : string)
    (currentVote : Property) (type : VoteType) : gmap string IftarEvent :=
  match db !! id with
  | Some ev => <[id := moved currentVote type ev]> db
  | None => db
  end.

(** The vote record after a click: moved only when the document was
    found. *)
Definition recAfter (db : gmap string IftarEvent)
    (userVotes : gmap string VoteType) (id : string) (type : VoteType)
  : gmap string VoteType :=
  match db !! id with
  | Some _ => recorded userVotes id type
  | None => userVotes
  end.

(** Clicks of several pages on one event, one after the other. *)
Definition votesOn (w : Community.World) (id : string)
    (clicks : list (nat * VoteType)) : Community.World :=
  foldl (fun w c => Community.vote w (fst c) id (snd c)) w clicks.

End VoteAlgebra.

(** ** The add dialog: [toggleDay] *)

Module Form.

Import Votes Community.

(** [daysOfWeek]: id and label. *)
Definition daysOfWeek : list (string * string) :=
  [("sat", "Sat"); ("sun", "Sun"); ("mon", "Mon"); ("tue", "Tue");
   ("wed", "Wed"); ("thu", "Thu"); ("fri", "Fri")].

(** The initial [newEvent]. *)
Definition emptyForm : NewEvent := mkNewEvent "" "" "" "" everyday [].

(** [toggleDay(dayId)], the updater given to [setNewEvent]:
    [includes] ? [filter(d => d !== dayId)] : [[...specific_days, dayId]]. *)
Definition toggleDay (prev : NewEvent) (dayId : string) : NewEvent :=
  let specific_days :=
    if bool_decide (dayId ∈ new_specific_days prev)
    then filter (fun d => d <> dayId) (new_specific_days prev)
    else new_specific_days prev ++ [dayId] in
  mkNewEvent (new_mosque_name prev) (new_location prev) (new_date prev)
    (new_description prev) (new_schedule_type prev) specific_days.

(** Clicks on day buttons, one after the other. *)
Definition toggleDays (prev : NewEvent) (dayIds : list string) : NewEvent :=
  foldl toggleDay prev dayIds.

End Form.

(** ** The pages of the list and the page bar *)

Module Pages.

Import Pagination.
Local Open Scope Z_scope.

(** The numbers on the buttons of the page bar: the bar is rendered only
    when [totalPages > 1], with
    [[...Array(totalPages)].map((_, i) => i + 1)]. *)
Definition pageNumbers (length : nat) : list Z :=
  if 1 <? totalPages length
  then gotoPage <$> seq 0 (Z.to_nat (totalPages length))
  else [].

(** What is shown on each page from 1 to [totalPages]. *)
Definition pages {A : Type} (events : list A) : list (list A) :=
  (fun i => currentEvents events (gotoPage i))
    <$> seq 0 (Z.to_nat (totalPages (length events))).

End Pages.

(** ** Reading the admin password at startup, and runs of admin actions *)

Module Startup.

Import Admin.

(** [fetchAdminPassword] with Firebase configured: [getDoc] may reject; an
    existing document gives the password to check against, a missing one
    is created with the default (that [setDoc] may reject too), and every
    rejection is only logged. *)
Definition fetchAdminPassword (s : AdminState) (getDoc_ok setDoc_ok : bool)
  : AdminState :=
  if getDoc_ok then
    match admin_config s with
    | Some password => mkAdminState (isAdmin s) password (admin_config s)
    | None =>
        if setDoc_ok
        then mkAdminState (isAdmin s) (adminPassword s) (Some "admin123")
        else s
    end
  else s.

(** The page as mounted over a settings document: [useState(false)],
    [useState('admin123')], then the effect. *)
Definition mount (settings : option string) (getDoc_ok setDoc_ok : bool)
  : AdminState :=
  fetchAdminPassword (mkAdminState false "admin123" settings)
    getDoc_ok setDoc_ok.

Inductive AdminAction : Set :=
| ClickLock (pass : option string)
| ClickChangePassword (newPass confirmPass : option string) (setDoc_ok : bool).

(** The lock button is always there; the change button only for an
    admin. *)
Definition adminStep (s : AdminState) (a : AdminAction) : AdminState :=
  match a with
  | ClickLock pass => fst (toggleAdmin s pass)
  | ClickChangePassword newPass confirmPass setDoc_ok =>
      if isAdmin s
      then fst (handleChangePassword s newPass confirmPass setDoc_ok)
      else s
  end.

Definition adminRun (s : AdminState) (actions : list AdminAction)
  : AdminState :=
  foldl adminStep s actions.

End Startup.

(** ** Refresh after refresh of the prayer times *)

Module Refreshes.

Import Fetch.
Local Open Scope Z_scope.

(** One run of [fetchTimings]: the two clock readings and what the two
    requests came to. *)
Record Refresh : Set := mkRefresh {
  r_today : Z;
  r_now : Z;
  r_resToday : Fetched;
  r_resTomorrow : Fetched
}.

Section PlatformDate.

Variable parseTime : string -> Z -> option Z.

Definition refresh (v : View) (r : Refresh) : View :=
  fetchTimings parseTime v (r_today r) (r_now r) (r_resToday r)
    (r_resTomorrow r).

(** The first run and the runs of the 5 minute interval. *)
Definition refreshes (rs : list Refresh) : View := foldl refresh firstLoad rs.

End PlatformDate.

(** A run in which a fetch failed, and one with two complete successes. *)
Definition refreshFailed (r : Refresh) : Prop :=
  failed (r_resToday r) \/ failed (r_resTomorrow r).

Definition refreshSucceeded (r : Refresh)
    (dataToday dataTomorrow : Timings.DayData) : Prop :=
  succeeded (r_resToday r) (r_resTomorrow r) dataToday dataTomorrow.

End Refreshes.

(** ** The date in the request path: [formatDate] *)

Module DateFormat.

(** [s.padStart(2, '0')]. *)
Definition padStart2 (s : string) : string :=
  match String.length s with
  | 0%nat => "00"
  | 1%nat => String "0"%char s
  | _ => s
  end.

(** [formatDate(d)] on [d.getDate()], [d.getMonth()] and
    [d.getFullYear()]; [String(n)] of a natural number is its decimal
    numeral. *)
Definition formatDate (date month fullYear : nat) : string :=
  padStart2 (pretty date) +:+ "-" +:+ padStart2 (pretty (month + 1))
    +:+ "-" +:+ pretty fullYear.

(** The two decimal digits of a number below 100, by arithmetic: the
    character of the tens and the character of the units. *)
Definition two (n : nat) : string :=
  String (ascii_of_nat (48 + n / 10))
    (String (ascii_of_nat (48 + n mod 10)) EmptyString).

(** Reading a two-digit field back. *)
Definition digit (c : ascii) : nat := Ascii.nat_of_ascii c - 48.

Definition untwo (s : string) : nat :=
  match s with
  | String a (String b _) => digit a * 10 + digit b
  | _ => 0
  end.

End DateFormat.

(** * Properties *)

(** ** One click *)

Section OneVote.

Import Votes VoteAlgebra.
Local Open Scope Z_scope.

Implicit Types (db : gmap string IftarEvent) (userVotes : gmap string VoteType).
Implicit Types (id : string) (type : VoteType) (ev : IftarEvent).

Lemma same_listing_refl ev : same_listing ev ev.
Proof. by repeat split. Qed.

Lemma same_listing_trans ev1 ev2 ev3 :
  same_listing ev1 ev2 -> same_listing ev2 ev3 -> same_listing ev1 ev3.
Proof. unfold same_listing. intuition congruence. Qed.

Lemma same_listing_increment ev kn : same_listing ev (increment ev kn).
Proof. destruct kn as [[] n]; by repeat split. Qed.

Lemma same_listing_shift a b ev : same_listing ev (shift a b ev).
Proof. by repeat split. Qed.

Lemma counter_increment type ev k n :
  counter type (increment ev (k, n)) =
  counter type ev + (if decide (voteField type = k) then n else 0).
Proof. destruct type, k; simpl; repeat case_decide; congruence || lia. Qed.

Lemma event_ext ev ev' :
  same_listing ev ev' -> true_votes ev' = true_votes ev ->
  false_votes ev' = false_votes ev -> ev' = ev.
Proof.
  destruct ev, ev'. unfold same_listing. simpl.
  intros (-> & -> & -> & -> & -> & ->) -> ->. done.
Qed.

Lemma shift_0 ev : shift 0 0 ev = ev.
Proof. apply event_ext; [apply same_listing_shift|simpl; lia..]. Qed.

Lemma shift_shift a b c d ev : shift a b (shift c d ev) = shift (c + a) (d + b) ev.
Proof. unfold shift. simpl. f_equal; lia. Qed.

Lemma increment_shift ev k n :
  increment ev (k, n) =
  shift (if decide (k = F_true_votes) then n else 0)
        (if decide (k = F_false_votes) then n else 0) ev.
Proof.
  destruct k; unfold increment, shift; simpl; f_equal; lia.
Qed.

(** Whatever was read, a click moves the two counters by amounts that do
    not depend on the document. *)
Lemma moved_shift currentVote type :
  exists a b, forall ev, moved currentVote type ev = shift a b ev.
Proof.
  unfold moved, voteData.
  destruct currentVote as [[]| |], type; simpl;
    repeat (case_decide; simpl); try congruence;
    eexists _, _; intros ev; rewrite ?increment_shift, ?shift_shift;
    repeat (case_decide; try congruence); reflexivity.
Qed.

Lemma updateDoc_found db id ev data :
  db !! id = Some ev ->
  updateDoc db id data = Some (<[id := foldl increment ev data]> db).
Proof. intros H. unfold updateDoc. by rewrite H. Qed.

Lemma updateDoc_missing db id data :
  db !! id = None -> updateDoc db id data = None.
Proof. intros H. unfold updateDoc. by rewrite H. Qed.

(** [handleVote] in closed form. *)
Lemma handleVote_closed db userVotes id type :
  handleVote db userVotes id type =
  (dbAfter db id (read userVotes id) type, recAfter db userVotes id type).
Proof.
  unfold handleVote, dbAfter, recAfter, recorded, moved, voteData, updateDoc.
  destruct (db !! id) as [ev|]; case_decide;
    destruct (read userVotes id); try congruence; done.
Qed.

(** A vote on a document that is gone changes nothing. *)
Lemma handleVote_missing db userVotes id type :
  db !! id = None -> handleVote db userVotes id type = (db, userVotes).
Proof.
  intros H. rewrite handleVote_closed. unfold dbAfter, recAfter. by rewrite H.
Qed.

Lemma read_own userVotes id vote :
  userVotes !! id = Some vote -> read userVotes id = Own vote.
Proof. intros H. unfold read. by rewrite H. Qed.

Lemma read_plain userVotes id :
  id ∉ Object_prototype -> userVotes !! id = None ->
  read userVotes id = Undefined.
Proof. intros Hp H. unfold read. rewrite H. by rewrite bool_decide_eq_false_2. Qed.

Lemma read_inherited userVotes id :
  id ∈ Object_prototype -> userVotes !! id = None ->
  read userVotes id = Inherited.
Proof. intros Hp H. unfold read. rewrite H. by rewrite bool_decide_eq_true_2. Qed.

(** The switch between the two choices writes two different keys, so both
    increments reach the document. *)
Lemma switch_keys cv type :
  cv <> type ->
  obj_set (voteField type) 1 (obj_set (currentField (Own cv)) (-1) []) =
  [(voteField cv, -1); (voteField type, 1)].
Proof. destruct cv, type; simpl; intros; (congruence || by case_decide). Qed.

(** The three branches on a record of the page's own, as equations. *)
Lemma handleVote_new db userVotes id type ev :
  db !! id = Some ev -> id ∉ Object_prototype -> userVotes !! id = None ->
  handleVote db userVotes id type =
  (<[id := increment ev (voteField type, 1)]> db, <[id := type]> userVotes).
Proof.
  intros Hev Hp Hrec. unfold handleVote. rewrite read_plain by done.
  rewrite decide_False by done. by rewrite (updateDoc_found _ _ ev).
Qed.

Lemma handleVote_withdraw db userVotes id type ev :
  db !! id = Some ev -> userVotes !! id = Some type ->
  handleVote db userVotes id type =
  (<[id := increment ev (voteField type, -1)]> db, delete id userVotes).
Proof.
  intros Hev Hrec. unfold handleVote. rewrite (read_own _ _ type) by done.
  rewrite decide_True by done. by rewrite (updateDoc_found _ _ ev).
Qed.

Lemma handleVote_switch db userVotes id type cv ev :
  db !! id = Some ev -> userVotes !! id = Some cv -> cv <> type ->
  handleVote db userVotes id type =
  (<[id := increment (increment ev (voteField cv, -1)) (voteField type, 1)]> db,
   <[id := type]> userVotes).
Proof.
  intros Hev Hrec Hne. unfold handleVote. rewrite (read_own _ _ cv) by done.
  rewrite decide_False by congruence. rewrite switch_keys by done.
  by rewrite (updateDoc_found _ _ ev).
Qed.

(** The read of an inherited name: with no record of its own the page
    takes the switch branch, whose first key is [false_votes]; a vote for
    true also takes 1 off [false_votes], and in a vote for false the
    second key replaces the first. *)
Lemma handleVote_inherited db userVotes id type ev :
  db !! id = Some ev -> id ∈ Object_prototype -> userVotes !! id = None ->
  handleVote db userVotes id type =
  (<[id := match type with
           | VTrue => shift 1 (-1) ev
           | VFalse => shift 0 1 ev
           end]> db,
   <[id := type]> userVotes).
Proof.
  intros Hev Hp Hrec. unfold handleVote. rewrite read_inherited by done.
  rewrite decide_False by done. rewrite (updateDoc_found _ _ ev) by done.
  f_equal. f_equal.
  destruct type; simpl; rewrite ?increment_shift, ?shift_shift;
    repeat (case_decide; try congruence); reflexivity.
Qed.

(** The step lemma for ids that are not inherited names: on an existing
    document a click rewrites that document only, leaves its listing
    alone, moves the record by [toggle], and moves each counter by exactly
    the change in what the page holds. *)
Lemma handleVote_step db userVotes id type ev :
  db !! id = Some ev -> id ∉ Object_prototype ->
  exists ev',
    handleVote db userVotes id type =
      (<[id := ev']> db,
       match toggle (userVotes !! id) type with
       | Some c => <[id := c]> userVotes
       | None => delete id userVotes
       end) /\
    same_listing ev ev' /\
    forall t, counter t ev' - counter t ev =
              (if decide (toggle (userVotes !! id) type = Some t) then 1 else 0)
              - holds t id userVotes.
Proof.
  intros Hev Hp. unfold toggle, holds.
  destruct (userVotes !! id) as [cv|] eqn:Hcv.
  - destruct (decide (cv = type)) as [->|Hne].
    + rewrite !decide_True by done.
      rewrite (handleVote_withdraw _ _ _ _ ev) by done.
      eexists. split; [reflexivity|]. split; [apply same_listing_increment|].
      intros t. rewrite counter_increment.
      destruct t, type; simpl; repeat case_decide; congruence || lia.
    + rewrite !decide_False by congruence.
      rewrite (handleVote_switch _ _ _ _ cv ev) by done.
      eexists. split; [reflexivity|].
      split; [eapply same_listing_trans; apply same_listing_increment|].
      intros t. rewrite !counter_increment.
      destruct t, type, cv; simpl; repeat case_decide; congruence || lia.
  - rewrite !decide_False by congruence.
    rewrite (handleVote_new _ _ _ _ ev) by done.
    eexists. split; [reflexivity|]. split; [apply same_listing_increment|].
    intros t. rewrite counter_increment.
    destruct t, type; simpl; repeat case_decide; congruence || lia.
Qed.

End OneVote.

(** ** Runs of clicks of one page on one event *)

Section VoteRuns.

Import Votes.
Local Open Scope Z_scope.

Implicit Types (db : gmap string IftarEvent) (userVotes : gmap string VoteType).
Implicit Types (id : string) (type : VoteType) (ev : IftarEvent).
Implicit Types (types : list VoteType).

(** [handleVote_step] with the record read back from the new [userVotes]. *)
Lemma handleVote_effect db userVotes id type ev :
  db !! id = Some ev -> id ∉ Object_prototype ->
  exists ev',
    fst (handleVote db userVotes id type) = <[id := ev']> db /\
    same_listing ev ev' /\
    snd (handleVote db userVotes id type) !! id =
      toggle (userVotes !! id) type /\
    (forall id', id' <> id ->
       snd (handleVote db userVotes id type) !! id' = userVotes !! id') /\
    forall t, counter t ev' - counter t ev =
              holds t id (snd (handleVote db userVotes id type))
              - holds t id userVotes.
Proof.
  intros Hev Hp.
  destruct (handleVote_step db userVotes id type ev Hev Hp)
    as (ev' & -> & Hl & Hc).
  exists ev'. simpl. split; [done|]. split; [done|].
  assert (Hrec : (match toggle (userVotes !! id) type with
                  | Some c => <[id := c]> userVotes
                  | None => delete id userVotes
                  end) !! id = toggle (userVotes !! id) type).
  { destruct (toggle (userVotes !! id) type);
      [apply lookup_insert_eq | apply lookup_delete_eq]. }
  split; [done|]. split.
  - intros id' Hne. destruct (toggle (userVotes !! id) type);
      [by apply lookup_insert_ne | by apply lookup_delete_ne].
  - intros t. rewrite Hc. unfold holds. by rewrite Hrec.
Qed.

Lemma handleVotes_cons db userVotes id type types :
  handleVotes db userVotes id (type :: types) =
  handleVotes (fst (handleVote db userVotes id type))
              (snd (handleVote db userVotes id type)) id types.
Proof. unfold handleVotes. simpl. by destruct (handleVote db userVotes id type). Qed.

Lemma handleVotes_app db userVotes id types1 types2 :
  handleVotes db userVotes id (types1 ++ types2) =
  handleVotes (fst (handleVotes db userVotes id types1))
              (snd (handleVotes db userVotes id types1)) id types2.
Proof.
  unfold handleVotes. rewrite foldl_app.
  by destruct (foldl _ (db, userVotes) types1).
Qed.

(** A run from any record, on an id that is not an inherited name: the
    document stays, its listing stays, the record follows [toggle] click
    by click, and each counter has moved by the change in what the page
    holds. *)
Lemma handleVotes_effect types : forall db userVotes id ev,
  db !! id = Some ev -> id ∉ Object_prototype ->
  exists ev',
    fst (handleVotes db userVotes id types) = <[id := ev']> db /\
    same_listing ev ev' /\
    snd (handleVotes db userVotes id types) !! id =
      foldl toggle (userVotes !! id) types /\
    forall t, counter t ev' - counter t ev =
              holds t id (snd (handleVotes db userVotes id types))
              - holds t id userVotes.
Proof.
  induction types as [|type types IH]; intros db userVotes id ev Hev Hp.
  - exists ev. simpl. split; [by rewrite insert_id|].
    split; [apply same_listing_refl|]. split; [done|]. intros t. lia.
  - rewrite handleVotes_cons.
    destruct (handleVote_effect db userVotes id type ev Hev Hp)
      as (ev1 & Hdb1 & Hl1 & Hr1 & _ & Hc1).
    destruct (IH (fst (handleVote db userVotes id type))
                 (snd (handleVote db userVotes id type)) id ev1)
      as (ev' & Hdb' & Hl' & Hr' & Hc'); [|done|].
    { rewrite Hdb1. apply lookup_insert_eq. }
    exists ev'. split.
    { rewrite Hdb', Hdb1. apply insert_insert_eq. }
    split; [by eapply same_listing_trans|].
    split; [by rewrite Hr', Hr1|].
    intros t. specialize (Hc1 t). specialize (Hc' t). lia.
Qed.

Lemma even_succ_negb n : Nat.even (S n) = negb (Nat.even n).
Proof. induction n as [|n IH]; [done|]. rewrite IH. simpl. by destruct (Nat.even n). Qed.

(** Click by click, [toggle] computes the choice left standing. *)
Lemma last_standing_snoc types type :
  last_standing (types ++ [type]) = toggle (last_standing types) type.
Proof.
  unfold last_standing. rewrite rev_app_distr. simpl.
  destruct (rev types) as [|c before]; [done|]. simpl.
  destruct (decide (c = type)) as [->|Hne].
  - rewrite even_succ_negb. unfold toggle.
    destruct (Nat.even (run_length type before)); simpl;
      repeat case_decide; congruence.
  - simpl. unfold toggle.
    destruct (Nat.even (run_length c before)); repeat case_decide; congruence.
Qed.

Lemma foldl_toggle_last_standing types :
  foldl toggle None types = last_standing types.
Proof.
  induction types as [|type types IH] using rev_ind; [done|].
  by rewrite foldl_snoc, IH, last_standing_snoc.
Qed.

Lemma holds_absent t id userVotes : userVotes !! id = None -> holds t id userVotes = 0.
Proof. intros H. unfold holds. rewrite H. by case_decide. Qed.

Lemma increment_back ev type :
  increment (increment ev (voteField type, 1)) (voteField type, -1) = ev.
Proof. destruct ev, type; unfold increment; simpl; f_equal; lia. Qed.

(** On an id that is not an inherited name, clicking the same button
    twice puts everything back. *)
Lemma toggle_twice db userVotes id type ev :
  db !! id = Some ev -> id ∉ Object_prototype -> userVotes !! id = None ->
  handleVotes db userVotes id [type; type] = (db, userVotes).
Proof.
  intros Hev Hp Hrec. unfold handleVotes. simpl.
  rewrite (handleVote_new db userVotes id type ev) by done. simpl.
  erewrite handleVote_withdraw by apply lookup_insert_eq.
  rewrite increment_back, insert_insert_eq, insert_id by done.
  by rewrite delete_insert_eq, delete_id.
Qed.

(** On an inherited name, the true button on and off again takes 1 off
    [false_votes] and leaves the record as it was. *)
Lemma inherited_cycle db userVotes id ev :
  db !! id = Some ev -> id ∈ Object_prototype -> userVotes !! id = None ->
  handleVotes db userVotes id [VTrue; VTrue] =
  (<[id := shift 0 (-1) ev]> db, userVotes).
Proof.
  intros Hev Hp Hrec. unfold handleVotes. simpl.
  rewrite (handleVote_inherited db userVotes id VTrue ev) by done. simpl.
  erewrite handleVote_withdraw by apply lookup_insert_eq.
  rewrite insert_insert_eq, delete_insert_eq, delete_id by done.
  f_equal. f_equal. simpl. rewrite increment_shift, shift_shift. simpl.
  reflexivity.
Qed.

(** For ids that are not inherited names the vote operation is the one
    the three cases describe. *)
Lemma handleVote_by_prior_choice db userVotes id type ev :
  db !! id = Some ev -> id ∉ Object_prototype ->
  exists ev',
    fst (handleVote db userVotes id type) = <[id := ev']> db /\
    same_listing ev ev' /\
    (userVotes !! id = None ->
       counter type ev' = counter type ev + 1 /\
       counter (other type) ev' = counter (other type) ev /\
       snd (handleVote db userVotes id type) = <[id := type]> userVotes) /\
    (userVotes !! id = Some type ->
       counter type ev' = counter type ev - 1 /\
       counter (other type) ev' = counter (other type) ev /\
       snd (handleVote db userVotes id type) = delete id userVotes) /\
    (userVotes !! id = Some (other type) ->
       counter (other type) ev' = counter (other type) ev - 1 /\
       counter type ev' = counter type ev + 1 /\
       snd (handleVote db userVotes id type) = <[id := type]> userVotes).
Proof.
  intros Hev Hp.
  destruct (handleVote_step db userVotes id type ev Hev Hp)
    as (ev' & -> & Hl & Hc).
  exists ev'. simpl. split; [done|]. split; [done|].
  pose proof (Hc type) as Hsame. pose proof (Hc (other type)) as Hother.
  unfold toggle, holds in *.
  split; [|split]; intros Hrec; rewrite Hrec in *;
    destruct type; simpl in *; repeat case_decide;
    try congruence; (split; [lia|split; [lia|done]]).
Qed.

(** C1: the vote operation does not act as the three cases say for every
    event id. On an id that is the name of an inherited member of the
    record object, with no prior choice recorded, the read finds the
    inherited member and the switch branch runs: a vote for true adds 1 to
    [true_votes], records the choice, and also takes 1 off
    [false_votes]. *)
Theorem vote_on_inherited_name db userVotes id ev :
  db !! id = Some ev -> id ∈ Object_prototype -> userVotes !! id = None ->
  exists ev',
    fst (handleVote db userVotes id VTrue) = <[id := ev']> db /\
    same_listing ev ev' /\
    true_votes ev' = true_votes ev + 1 /\
    false_votes ev' = false_votes ev - 1 /\
    snd (handleVote db userVotes id VTrue) = <[id := VTrue]> userVotes.
Proof.
  intros Hev Hp Hrec.
  rewrite (handleVote_inherited db userVotes id VTrue ev) by done.
  exists (shift 1 (-1) ev). simpl.
  split; [done|]. split; [apply same_listing_shift|]. repeat split; lia.
Qed.

Lemma vote_on_inherited_name_witness :
  ({["constructor" := ev21]} : gmap string IftarEvent) !! "constructor"
    = Some ev21 /\
  "constructor" ∈ Object_prototype /\
  (∅ : gmap string VoteType) !! "constructor" = None /\
  exists ev',
    fst (handleVote {["constructor" := ev21]} ∅ "constructor" VTrue)
      = <["constructor" := ev']> {["constructor" := ev21]} /\
    same_listing ev21 ev' /\
    true_votes ev' = 2 + 1 /\
    false_votes ev' = 1 - 1 /\
    snd (handleVote {["constructor" := ev21]} ∅ "constructor" VTrue)
      = <["constructor" := VTrue]> ∅.
Proof.
  assert (Hp : "constructor" ∈ Object_prototype) by (by left).
  split; [vm_compute; reflexivity|]. split; [done|].
  split; [vm_compute; reflexivity|].
  apply (vote_on_inherited_name {["constructor" := ev21]} ∅
           "constructor" ev21); [vm_compute; reflexivity|done|
                                 vm_compute; reflexivity].
Defined.

(** For ids that are not inherited names, any run from no record has
    added +1 to exactly one counter or nothing, and the record is the
    choice left standing. *)
Lemma device_delta_of_any_run db userVotes id ev types :
  db !! id = Some ev -> id ∉ Object_prototype -> userVotes !! id = None ->
  exists ev',
    fst (handleVotes db userVotes id types) !! id = Some ev' /\
    same_listing ev ev' /\
    snd (handleVotes db userVotes id types) !! id = last_standing types /\
    let dt := true_votes ev' - true_votes ev in
    let df := false_votes ev' - false_votes ev in
    ((dt = 1 /\ df = 0 /\ last_standing types = Some VTrue) \/
     (dt = 0 /\ df = 1 /\ last_standing types = Some VFalse) \/
     (dt = 0 /\ df = 0 /\ last_standing types = None)) /\
    (-1 <= dt <= 1) /\ (-1 <= df <= 1).
Proof.
  intros Hev Hp Hrec.
  destruct (handleVotes_effect types db userVotes id ev Hev Hp)
    as (ev' & Hdb & Hl & Hr & Hc).
  rewrite Hrec, foldl_toggle_last_standing in Hr.
  exists ev'. split; [rewrite Hdb; apply lookup_insert_eq|].
  split; [done|]. split; [done|].
  pose proof (Hc VTrue) as Ht. pose proof (Hc VFalse) as Hf.
  rewrite (holds_absent VTrue id userVotes) in Ht by done.
  rewrite (holds_absent VFalse id userVotes) in Hf by done.
  unfold holds in Ht, Hf. rewrite Hr in Ht, Hf. simpl in Ht, Hf.
  destruct (last_standing types) as [[]|];
    repeat case_decide; try congruence; simpl; (split; [|lia]).
  - left. repeat split; lia.
  - right; left. repeat split; lia.
  - right; right. repeat split; lia.
Qed.

(** C2: the change a run of one page makes to the counter pair is not
    always +1 on one counter or nothing. On an id that is the name of an
    inherited member, from no record, the single click true moves the
    pair by +1 and -1, and [n] times on and off with the true button
    leave no record and [false_votes] lower by [n]. *)
Theorem runs_on_inherited_name db userVotes id ev (n : nat) :
  db !! id = Some ev -> id ∈ Object_prototype -> userVotes !! id = None ->
  (exists ev1,
     fst (handleVotes db userVotes id [VTrue]) !! id = Some ev1 /\
     true_votes ev1 - true_votes ev = 1 /\
     false_votes ev1 - false_votes ev = -1) /\
  (exists evn,
     fst (handleVotes db userVotes id (trueCycles n)) !! id = Some evn /\
     true_votes evn - true_votes ev = 0 /\
     false_votes evn - false_votes ev = - Z.of_nat n /\
     snd (handleVotes db userVotes id (trueCycles n)) = userVotes).
Proof.
  intros Hev Hp Hrec. split.
  - unfold handleVotes. simpl.
    rewrite (handleVote_inherited db userVotes id VTrue ev) by done. simpl.
    rewrite lookup_insert_eq. eexists. split; [done|]. simpl. lia.
  - assert (H : handleVotes db userVotes id (trueCycles n) =
                (<[id := shift 0 (- Z.of_nat n) ev]> db, userVotes)).
    { induction n as [|n IH].
      - simpl. unfold handleVotes. simpl. by rewrite shift_0, insert_id.
      - unfold trueCycles in *. rewrite replicate_S_end, concat_app.
        simpl. rewrite ?app_nil_r, handleVotes_app, IH. simpl.
        erewrite inherited_cycle; [|apply lookup_insert_eq|done|done].
        rewrite insert_insert_eq, shift_shift. do 3 f_equal. lia. }
    rewrite H. simpl. rewrite lookup_insert_eq. eexists. split; [done|].
    simpl. repeat split; lia.
Qed.

Lemma runs_on_inherited_name_witness :
  ({["constructor" := ev21]} : gmap string IftarEvent) !! "constructor"
    = Some ev21 /\
  "constructor" ∈ Object_prototype /\
  (∅ : gmap string VoteType) !! "constructor" = None /\
  exists evn,
    fst (handleVotes {["constructor" := ev21]} ∅ "constructor" (trueCycles 3))
      !! "constructor" = Some evn /\
    true_votes evn - true_votes ev21 = 0 /\
    false_votes evn - false_votes ev21 = - Z.of_nat 3 /\
    snd (handleVotes {["constructor" := ev21]} ∅ "constructor" (trueCycles 3))
      = ∅.
Proof.
  assert (Hp : "constructor" ∈ Object_prototype) by (by left).
  split; [vm_compute; reflexivity|]. split; [done|].
  split; [vm_compute; reflexivity|].
  apply (runs_on_inherited_name {["constructor" := ev21]} ∅
           "constructor" ev21 3); [vm_compute; reflexivity|done|
                                   vm_compute; reflexivity].
Defined.

(** C3, as the code has it: for an event whose id is not the name of an
    inherited member, with no prior record, vote(true) then vote(false)
    leaves [true_votes] where it was before the first call and
    [false_votes] one higher, which is [true_votes - 1] and
    [false_votes + 1] relative to the values between the two calls; and
    from counters 2 and 1 with no record, a vote for false gives
    [false_votes = 2] with record false, and a vote for true after it gives
    [true_votes = 3], [false_votes = 1] with record true. *)
Theorem switch_after_first_vote db userVotes id ev :
  db !! id = Some ev -> id ∉ Object_prototype -> userVotes !! id = None ->
  (exists ev1 ev2,
    fst (handleVote db userVotes id VTrue) !! id = Some ev1 /\
    fst (handleVotes db userVotes id [VTrue; VFalse]) !! id = Some ev2 /\
    snd (handleVotes db userVotes id [VTrue; VFalse]) =
      <[id := VFalse]> userVotes /\
    true_votes ev2 = true_votes ev /\
    false_votes ev2 = false_votes ev + 1 /\
    true_votes ev2 = true_votes ev1 - 1 /\
    false_votes ev2 = false_votes ev1 + 1) /\
  (true_votes ev = 2 -> false_votes ev = 1 ->
   exists e1 e2,
    handleVote db userVotes id VFalse =
      (<[id := e1]> db, <[id := VFalse]> userVotes) /\
    true_votes e1 = 2 /\ false_votes e1 = 2 /\
    handleVote (<[id := e1]> db) (<[id := VFalse]> userVotes) id VTrue =
      (<[id := e2]> db, <[id := VTrue]> userVotes) /\
    true_votes e2 = 3 /\ false_votes e2 = 1).
Proof.
  intros Hev Hp Hrec. split.
  - unfold handleVotes. simpl.
    rewrite (handleVote_new db userVotes id VTrue ev) by done. simpl.
    erewrite handleVote_switch;
      [|apply lookup_insert_eq|apply lookup_insert_eq|done]. simpl.
    do 2 eexists. split; [apply lookup_insert_eq|].
    split; [apply lookup_insert_eq|].
    split; [apply insert_insert_eq|]. simpl. lia.
  - intros Ht Hf.
    rewrite (handleVote_new db userVotes id VFalse ev) by done.
    exists (increment ev (F_false_votes, 1)). eexists.
    split; [reflexivity|]. simpl. split; [lia|]. split; [lia|].
    erewrite handleVote_switch;
      [|apply lookup_insert_eq|apply lookup_insert_eq|done].
    rewrite !insert_insert_eq. split; [reflexivity|]. simpl. lia.
Qed.

Lemma switch_after_first_vote_witness :
  ({["E" := ev21]} : gmap string IftarEvent) !! "E" = Some ev21 /\
  ("E" ∉ Object_prototype) /\
  (∅ : gmap string VoteType) !! "E" = None /\
  true_votes ev21 = 2 /\ false_votes ev21 = 1 /\
  exists e1 e2,
    handleVote {["E" := ev21]} ∅ "E" VFalse =
      (<["E" := e1]> {["E" := ev21]}, <["E" := VFalse]> ∅) /\
    true_votes e1 = 2 /\ false_votes e1 = 2 /\
    handleVote (<["E" := e1]> {["E" := ev21]}) (<["E" := VFalse]> ∅) "E" VTrue =
      (<["E" := e2]> {["E" := ev21]}, <["E" := VTrue]> ∅) /\
    true_votes e2 = 3 /\ false_votes e2 = 1.
Proof.
  assert (Hp : "E" ∉ Object_prototype)
    by (apply (bool_decide_unpack _); vm_compute; exact I).
  split; [vm_compute; reflexivity|]. split; [done|].
  split; [vm_compute; reflexivity|].
  split; [reflexivity|]. split; [reflexivity|].
  apply (switch_after_first_vote {["E" := ev21]} ∅ "E" ev21);
    [vm_compute; reflexivity|done|vm_compute; reflexivity|
     reflexivity|reflexivity].
Defined.

(** C3 as stated fails: from counters 2 and 1, vote(true) then vote(false)
    ends at [true_votes = 2], not at one less than before the first
    call. *)
Lemma switch_relative_to_first_call_counterexample :
  exists ev2,
    fst (handleVotes {["E" := ev21]} ∅ "E" [VTrue; VFalse]) !! "E" = Some ev2 /\
    true_votes ev2 = 2 /\ false_votes ev2 = 2 /\
    true_votes ev2 <> true_votes ev21 - 1.
Proof.
  eexists. split; [vm_compute; reflexivity|]. simpl. repeat split; lia.
Qed.

(** For ids that are not inherited names, the same button twice returns
    counters and record. *)
Lemma toggle_idempotence db userVotes id ev :
  db !! id = Some ev -> id ∉ Object_prototype -> userVotes !! id = None ->
  exists ev',
    fst (handleVotes db userVotes id [VTrue; VTrue]) !! id = Some ev' /\
    true_votes ev' = true_votes ev /\ false_votes ev' = false_votes ev /\
    snd (handleVotes db userVotes id [VTrue; VTrue]) !! id = None /\
    handleVotes db userVotes id [VTrue; VTrue] = (db, userVotes).
Proof.
  intros Hev Hp Hrec.
  rewrite (toggle_twice db userVotes id VTrue ev Hev Hp Hrec).
  exists ev. by simpl.
Qed.

(** C4: vote(true) twice does not return the counters for every event.
    On an id that is the name of an inherited member, with no prior
    record, the two calls clear the record and return [true_votes], but
    leave [false_votes] one lower than before the first call. *)
Theorem toggle_twice_on_inherited_name db userVotes id ev :
  db !! id = Some ev -> id ∈ Object_prototype -> userVotes !! id = None ->
  exists ev',
    fst (handleVotes db userVotes id [VTrue; VTrue]) !! id = Some ev' /\
    true_votes ev' = true_votes ev /\
    false_votes ev' = false_votes ev - 1 /\
    snd (handleVotes db userVotes id [VTrue; VTrue]) !! id = None.
Proof.
  intros Hev Hp Hrec. rewrite (inherited_cycle db userVotes id ev) by done.
  simpl. rewrite lookup_insert_eq. eexists. split; [done|]. simpl.
  repeat split; lia || done.
Qed.

Lemma toggle_twice_on_inherited_name_witness :
  ({["constructor" := ev21]} : gmap string IftarEvent) !! "constructor"
    = Some ev21 /\
  "constructor" ∈ Object_prototype /\
  (∅ : gmap string VoteType) !! "constructor" = None /\
  exists ev',
    fst (handleVotes {["constructor" := ev21]} ∅ "constructor" [VTrue; VTrue])
      !! "constructor" = Some ev' /\
    true_votes ev' = true_votes ev21 /\
    false_votes ev' = false_votes ev21 - 1 /\
    snd (handleVotes {["constructor" := ev21]} ∅ "constructor" [VTrue; VTrue])
      !! "constructor" = None.
Proof.
  assert (Hp : "constructor" ∈ Object_prototype) by (by left).
  split; [vm_compute; reflexivity|]. split; [done|].
  split; [vm_compute; reflexivity|].
  apply (toggle_twice_on_inherited_name {["constructor" := ev21]} ∅
           "constructor" ev21); [vm_compute; reflexivity|done|
                                 vm_compute; reflexivity].
Defined.

End VoteRuns.

(** ** The counters under any number of pages *)

Section CommunityInvariant.

Import Votes Community VoteAlgebra.
Local Open Scope Z_scope.

Implicit Types (w : World) (ds : list (gmap string VoteType)).
Implicit Types (userVotes : gmap string VoteType) (id : string).
Implicit Types (type t : VoteType) (ev : IftarEvent) (d : nat).

Lemma holds_range t id userVotes : 0 <= holds t id userVotes <= 1.
Proof. unfold holds. case_decide; lia. Qed.

Lemma holds_empty t id : holds t id ∅ = 0.
Proof. apply holds_absent, lookup_empty. Qed.

Lemma holds_same_record t id userVotes userVotes' :
  userVotes' !! id = userVotes !! id ->
  holds t id userVotes' = holds t id userVotes.
Proof. intros H. unfold holds. by rewrite H. Qed.

Lemma tally_nonneg t id ds : 0 <= tally t id ds.
Proof.
  induction ds as [|userVotes ds IH]; simpl; [lia|].
  pose proof (holds_range t id userVotes). lia.
Qed.

Lemma tally_app t id ds ds' :
  tally t id (ds ++ ds') = tally t id ds + tally t id ds'.
Proof. induction ds as [|userVotes ds IH]; simpl; lia. Qed.

Lemma tally_insert t id ds d userVotes userVotes' :
  ds !! d = Some userVotes ->
  tally t id (<[d := userVotes']> ds) =
  tally t id ds - holds t id userVotes + holds t id userVotes'.
Proof.
  revert d. induction ds as [|u ds IH]; intros [|d] H; simpl in *;
    try done.
  - injection H as ->. lia.
  - rewrite (IH d H). lia.
Qed.

Lemma tally_unrecorded t id ds :
  (forall userVotes, userVotes ∈ ds -> userVotes !! id = None) ->
  tally t id ds = 0.
Proof.
  induction ds as [|u ds IH]; intros H; simpl; [done|].
  rewrite holds_absent by (apply H; left).
  rewrite IH; [done|]. intros u' Hu'. apply H. by right.
Qed.

Lemma elem_of_list_insert_inv (ds : list (gmap string VoteType)) d u u' :
  u ∈ <[d := u']> ds -> u = u' \/ u ∈ ds.
Proof.
  intros [j Hj]%list_elem_of_lookup.
  apply list_lookup_insert_Some in Hj as [(_ & -> & _)|(_ & Hj)];
    [by left|right; by eapply list_elem_of_lookup_2].
Qed.

(** A click leaves a record only for the event clicked, and only when
    its document is there. *)
Lemma recAfter_is_Some db userVotes id type id' :
  is_Some (recAfter db userVotes id type !! id') ->
  is_Some (userVotes !! id') \/ (id' = id /\ is_Some (db !! id)).
Proof.
  unfold recAfter, recorded. destruct (db !! id) as [ev|]; [|by left].
  destruct (decide (id' = id)) as [->|Hne]; [right; by eauto|].
  case_decide; [rewrite lookup_delete_ne by done|rewrite lookup_insert_ne by done];
    by left.
Qed.

Lemma dbAfter_is_Some db id currentVote type id' :
  is_Some (dbAfter db id currentVote type !! id') <-> is_Some (db !! id').
Proof.
  unfold dbAfter. destruct (db !! id) as [ev|] eqn:E; [|done].
  rewrite lookup_insert_is_Some. split.
  - intros [<-|[_ H]]; [by rewrite E|done].
  - intros H. destruct (decide (id = id')); [by left|by right].
Qed.

Lemma tracked_init : tracked init.
Proof.
  split; simpl.
  - intros id [ev H]. by rewrite lookup_empty in H.
  - intros userVotes id H. by apply elem_of_nil in H.
Qed.

Lemma tracked_add w id newEvent :
  tracked w -> tracked (handleAddEvent w id newEvent).
Proof.
  intros [He Hr]. unfold handleAddEvent. case_decide; [by split|].
  split; simpl.
  - intros id0. rewrite lookup_insert_is_Some.
    intros [<-|[_ H0]]; [set_solver|]. apply He in H0. set_solver.
  - intros u id0 Hu H0. pose proof (Hr u id0 Hu H0). set_solver.
Qed.

Lemma tracked_delete w id : tracked w -> tracked (handleDelete w id).
Proof.
  intros [He Hr]. split; simpl; [|done].
  intros id0 [ev0 H0]. apply lookup_delete_Some in H0 as [_ H0].
  apply He. by rewrite H0.
Qed.

Lemma tracked_join w : tracked w -> tracked (join w).
Proof.
  intros [He Hr]. split; simpl; [done|].
  intros u id0. rewrite elem_of_app, list_elem_of_singleton.
  intros [Hu| ->] H0; [by eapply Hr|].
  rewrite lookup_empty in H0. by destruct H0.
Qed.

Lemma tracked_open w d : tracked w -> tracked (openTab w d).
Proof.
  intros [He Hr]. unfold openTab.
  destruct (devices w !! d) as [u0|] eqn:E; [|by split].
  split; simpl; [done|].
  intros u id0. rewrite elem_of_app, list_elem_of_singleton.
  intros [Hu| ->] H0; [by eapply Hr|].
  eapply Hr; [|done]. by eapply list_elem_of_lookup_2.
Qed.

Lemma tracked_clear w d : tracked w -> tracked (clearStorage w d).
Proof.
  intros [He Hr]. split; simpl; [done|].
  intros u id0 [-> | Hu]%elem_of_list_insert_inv H0; [|by eapply Hr].
  rewrite lookup_empty in H0. by destruct H0.
Qed.

Lemma tracked_vote w d id type : tracked w -> tracked (vote w d id type).
Proof.
  intros [He Hr]. unfold vote.
  destruct (devices w !! d) as [u|] eqn:Hd; [|by split].
  rewrite handleVote_closed. split; simpl.
  - intros id0 H0%dbAfter_is_Some. by apply He.
  - intros u0 id0 [-> | Hu]%elem_of_list_insert_inv H0; [|by eapply Hr].
    apply recAfter_is_Some in H0 as [H0|[-> H0]]; [|by apply He].
    eapply Hr; [|done]. by eapply list_elem_of_lookup_2.
Qed.

Lemma reachable_tracked w : reachable w -> tracked w.
Proof.
  induction 1 as [|w w' _ IH Hs]; [apply tracked_init|].
  destruct Hs; auto using tracked_add, tracked_delete, tracked_vote,
    tracked_join, tracked_open, tracked_clear.
Qed.

Lemma consistent_init : consistent init.
Proof.
  split; simpl; [| |apply tracked_init].
  - intros id ev type H. by rewrite lookup_empty in H.
  - intros id [ev H]. by rewrite lookup_empty in H.
Qed.

Lemma consistent_add w id newEvent :
  id ∉ issued w -> id ∉ Object_prototype ->
  consistent w -> consistent (handleAddEvent w id newEvent).
Proof.
  intros Hfresh Hplain [Hc Hp Ht].
  split; [| |by apply tracked_add].
  - unfold handleAddEvent. case_decide; [done|]. simpl.
    intros id0 ev0 t. rewrite lookup_insert_Some.
    intros [[<- <-]|[Hne H0]]; [|by apply Hc].
    rewrite tally_unrecorded; [destruct t; simpl; lia|].
    intros u Hu. destruct (u !! id) eqn:E; [|done].
    exfalso. apply Hfresh. eapply (records_issued w Ht); [done|].
    by rewrite E.
  - unfold handleAddEvent. case_decide; [done|]. simpl.
    intros id0. rewrite lookup_insert_is_Some.
    intros [<-|[_ H0]]; [done|by apply Hp].
Qed.

Lemma consistent_delete w id : consistent w -> consistent (handleDelete w id).
Proof.
  intros [Hc Hp Ht]. split; simpl; [| |by apply tracked_delete].
  - intros id0 ev0 t. rewrite lookup_delete_Some. intros [_ H0]. by apply Hc.
  - intros id0 [ev0 H0]. apply lookup_delete_Some in H0 as [_ H0].
    apply Hp. by rewrite H0.
Qed.

Lemma consistent_join w : consistent w -> consistent (join w).
Proof.
  intros [Hc Hp Ht]. split; simpl; [|done|by apply tracked_join].
  intros id0 ev0 t H0. rewrite tally_app. simpl. rewrite holds_empty.
  specialize (Hc id0 ev0 t H0). lia.
Qed.

Lemma consistent_clear w d : consistent w -> consistent (clearStorage w d).
Proof.
  intros [Hc Hp Ht]. split; simpl; [|done|by apply tracked_clear].
  intros id0 ev0 t H0. specialize (Hc id0 ev0 t H0).
  destruct (devices w !! d) as [u|] eqn:E.
  - rewrite (tally_insert _ _ _ _ u) by done. rewrite holds_empty.
    pose proof (holds_range t id0 u). lia.
  - rewrite list_insert_ge; [done|]. by apply lookup_ge_None.
Qed.

Lemma consistent_vote w d id type : consistent w -> consistent (vote w d id type).
Proof.
  intros Hw. pose proof Hw as [Hc Hp Ht].
  split; [| |by apply tracked_vote].
  - unfold vote. destruct (devices w !! d) as [u|] eqn:Hd; [|done].
    destruct (db w !! id) as [ev|] eqn:Hev.
    + assert (Hplain : id ∉ Object_prototype) by (apply Hp; by rewrite Hev).
      destruct (handleVote_effect (db w) u id type ev Hev Hplain)
        as (ev' & Hdb & _ & _ & Hrest & Hdelta).
      simpl. intros id0 ev0 t. rewrite Hdb, lookup_insert_Some.
      rewrite (tally_insert _ _ _ _ u) by done.
      intros [[<- <-]|[Hne H0]].
      * specialize (Hc id ev t Hev). specialize (Hdelta t). lia.
      * rewrite (holds_same_record t id0 u (snd (handleVote (db w) u id type)))
          by (apply Hrest; congruence).
        specialize (Hc id0 ev0 t H0). lia.
    + rewrite handleVote_missing by done. simpl.
      rewrite list_insert_id by done. done.
  - unfold vote. destruct (devices w !! d) as [u|] eqn:Hd; [|done].
    rewrite handleVote_closed. simpl.
    intros id0 H0%dbAfter_is_Some. by apply Hp.
Qed.

Lemma consistent_step w w' : consistent w -> step_apart w w' -> consistent w'.
Proof.
  intros Hw Hs. destruct Hs;
    auto using consistent_add, consistent_delete, consistent_vote,
               consistent_join, consistent_clear.
Qed.

Lemma reachable_apart_consistent w : reachable_apart w -> consistent w.
Proof.
  induction 1 as [|w w' _ IH Hs]; [apply consistent_init|].
  by eapply consistent_step.
Qed.

Lemma consistent_nonneg w id ev :
  consistent w -> db w !! id = Some ev ->
  0 <= true_votes ev /\ 0 <= false_votes ev.
Proof.
  intros [Hc _ _] Hev.
  pose proof (Hc id ev VTrue Hev). pose proof (Hc id ev VFalse Hev).
  pose proof (tally_nonneg VTrue id (devices w)).
  pose proof (tally_nonneg VFalse id (devices w)).
  simpl in *. lia.
Qed.

(** C5, as the code has it: the two counters are integers, and in every
    state reached by adding events (under ids that are not names of
    inherited members), deleting them, and votes handled one after the
    other by pages that each started from a record of their own, both
    counters of every event are at least 0 and remain so after any vote.
    [handleVote] has no guard of its own on the decrement. *)
Theorem counters_never_negative w :
  reachable_apart w ->
  (forall id ev, db w !! id = Some ev ->
     0 <= true_votes ev /\ 0 <= false_votes ev) /\
  (forall d id type id' ev',
     db (vote w d id type) !! id' = Some ev' ->
     0 <= true_votes ev' /\ 0 <= false_votes ev').
Proof.
  intros Hw%reachable_apart_consistent. split.
  - intros id ev. by apply consistent_nonneg.
  - intros d id type id' ev'. apply consistent_nonneg.
    by apply consistent_vote.
Qed.

End CommunityInvariant.

Section CommunityExamples.

Import Votes Community.
Local Open Scope Z_scope.

Lemma E_plain : "E" ∉ Object_prototype.
Proof. apply (bool_decide_unpack _). vm_compute. exact I. Qed.

Lemma sampleWorld_reachable_apart : reachable_apart sampleWorld.
Proof.
  unfold sampleWorld.
  eapply reachable_apart_step; [|apply apart_vote].
  eapply reachable_apart_step; [|apply apart_vote].
  eapply reachable_apart_step; [|apply apart_join].
  eapply reachable_apart_step; [apply reachable_apart_init|].
  apply apart_add; [apply not_elem_of_empty|apply E_plain].
Qed.

Lemma counters_never_negative_witness :
  reachable_apart sampleWorld /\
  (forall id ev, db sampleWorld !! id = Some ev ->
     0 <= true_votes ev /\ 0 <= false_votes ev) /\
  (forall d id type id' ev',
     db (vote sampleWorld d id type) !! id' = Some ev' ->
     0 <= true_votes ev' /\ 0 <= false_votes ev').
Proof.
  split; [apply sampleWorld_reachable_apart|].
  apply (counters_never_negative sampleWorld).
  apply sampleWorld_reachable_apart.
Defined.

Lemma twoTabs_reachable : reachable twoTabs.
Proof.
  unfold twoTabs.
  eapply reachable_step; [|apply step_vote].
  eapply reachable_step; [|apply step_vote].
  eapply reachable_step; [|apply step_open].
  eapply reachable_step; [|apply step_vote].
  eapply reachable_step; [|apply step_join].
  eapply reachable_step; [apply reachable_init|].
  apply step_add. apply not_elem_of_empty.
Qed.

(** C5 as stated fails: a page votes for true, a second page of the same
    browser opens on the saved record, and each takes the vote back; the
    second withdrawal is a vote operation on a reachable state that takes
    [true_votes] from 0 to -1. *)
Lemma second_tab_counterexample :
  reachable twoTabs /\
  exists ev, db twoTabs !! "E" = Some ev /\ true_votes ev = -1.
Proof.
  split; [apply twoTabs_reachable|].
  eexists. split; [vm_compute; reflexivity|]. reflexivity.
Qed.

(** Nor does a single page protect the counters from a record that no
    vote of its own put there: withdrawing it takes a counter of 0 to
    -1. *)
Remark unearned_record_goes_negative :
  let ev00 := mkIftarEvent "Boro Masjid" "Kushtia" None None everyday None 0 0 in
  exists ev',
    fst (handleVote {["E" := ev00]} {["E" := VTrue]} "E" VTrue) !! "E" = Some ev' /\
    true_votes ev' = -1.
Proof. eexists. split; [vm_compute; reflexivity|]. reflexivity. Qed.

End CommunityExamples.

(** ** Window selection *)

Section WindowSelection.

Import Timings.
Local Open Scope Z_scope.

Variable parseTime : string -> Z -> option Z.

Implicit Types (now today : Z) (dataToday dataTomorrow : DayData).

Lemma date_gt_after now d : d < now -> date_gt now (Some d) = true.
Proof. intros H. simpl. by apply Z.ltb_lt. Qed.

Lemma date_gt_not_after now d : now <= d -> date_gt now (Some d) = false.
Proof. intros H. simpl. by apply Z.ltb_ge. Qed.

(** Each boundary of the selection looks at its own instant only. *)
Lemma selectTimings_sahri now today dataToday dataTomorrow :
  sahri (selectTimings parseTime now today dataToday dataTomorrow) =
  Some (if date_gt now (parseTime (Fajr dataToday) today)
        then sahriOf dataTomorrow else sahriOf dataToday).
Proof. unfold selectTimings. simpl. by destruct (date_gt _ _). Qed.

Lemma selectTimings_iftar now today dataToday dataTomorrow :
  iftar (selectTimings parseTime now today dataToday dataTomorrow) =
  Some (if date_gt now (parseTime (Maghrib dataToday) today)
        then iftarOf dataTomorrow else iftarOf dataToday).
Proof. unfold selectTimings. simpl. by destruct (date_gt _ _). Qed.

(** C6: for every current instant and every pair of today's boundary
    instants, each boundary is decided on its own: tomorrow's value is
    selected when the current instant is strictly after today's instant
    of that boundary and today's value otherwise, so that where the two
    values differ tomorrow's is shown exactly when strictly after; at the
    boundary instant itself today's value is selected. *)
Theorem window_selection_per_boundary
    now today dataToday dataTomorrow (sahriToday iftarToday : Z) :
  parseTime (Fajr dataToday) today = Some sahriToday ->
  parseTime (Maghrib dataToday) today = Some iftarToday ->
  let selected := selectTimings parseTime now today dataToday dataTomorrow in
  (sahriToday < now -> sahri selected = Some (sahriOf dataTomorrow)) /\
  (now <= sahriToday -> sahri selected = Some (sahriOf dataToday)) /\
  (iftarToday < now -> iftar selected = Some (iftarOf dataTomorrow)) /\
  (now <= iftarToday -> iftar selected = Some (iftarOf dataToday)) /\
  (sahriOf dataTomorrow <> sahriOf dataToday ->
     (sahri selected = Some (sahriOf dataTomorrow) <-> sahriToday < now)) /\
  (iftarOf dataTomorrow <> iftarOf dataToday ->
     (iftar selected = Some (iftarOf dataTomorrow) <-> iftarToday < now)) /\
  (now = sahriToday -> sahri selected = Some (sahriOf dataToday)) /\
  (now = iftarToday -> iftar selected = Some (iftarOf dataToday)).
Proof.
  intros Hs Hi selected. unfold selected.
  rewrite selectTimings_sahri, selectTimings_iftar, Hs, Hi.
  assert (Hsa : sahriToday < now ->
                Some (if date_gt now (Some sahriToday)
                      then sahriOf dataTomorrow else sahriOf dataToday)
                = Some (sahriOf dataTomorrow))
    by (intros H; by rewrite date_gt_after).
  assert (Hsb : now <= sahriToday ->
                Some (if date_gt now (Some sahriToday)
                      then sahriOf dataTomorrow else sahriOf dataToday)
                = Some (sahriOf dataToday))
    by (intros H; by rewrite date_gt_not_after).
  assert (Hia : iftarToday < now ->
                Some (if date_gt now (Some iftarToday)
                      then iftarOf dataTomorrow else iftarOf dataToday)
                = Some (iftarOf dataTomorrow))
    by (intros H; by rewrite date_gt_after).
  assert (Hib : now <= iftarToday ->
                Some (if date_gt now (Some iftarToday)
                      then iftarOf dataTomorrow else iftarOf dataToday)
                = Some (iftarOf dataToday))
    by (intros H; by rewrite date_gt_not_after).
  split; [done|]. split; [done|]. split; [done|]. split; [done|].
  split; [|split; [|split]].
  - intros Hne. split; [|done]. intros Hsel.
    destruct (Z.lt_ge_cases sahriToday now) as [|Hle]; [done|].
    rewrite Hsb in Hsel by done. congruence.
  - intros Hne. split; [|done]. intros Hsel.
    destruct (Z.lt_ge_cases iftarToday now) as [|Hle]; [done|].
    rewrite Hib in Hsel by done. congruence.
  - intros ->. apply Hsb. lia.
  - intros ->. apply Hib. lia.
Qed.

End WindowSelection.

Lemma window_selection_per_boundary_witness :
  let selected := Timings.selectTimings Timings.sampleClock 17400000 0
                    Timings.day1 Timings.day2 in
  Timings.sampleClock (Timings.Fajr Timings.day1) 0 = Some 17400000%Z /\
  Timings.sampleClock (Timings.Maghrib Timings.day1) 0 = Some 65100000%Z /\
  Timings.sahri selected = Some (Timings.sahriOf Timings.day1) /\
  Timings.iftar selected = Some (Timings.iftarOf Timings.day1).
Proof.
  split; [reflexivity|]. split; [reflexivity|].
  pose proof (window_selection_per_boundary Timings.sampleClock
                17400000 0 Timings.day1 Timings.day2 17400000 65100000
                eq_refl eq_refl) as (_ & Hs & _ & Hi & _).
  split; [apply Hs | apply Hi]; lia.
Defined.

(** ** Failed fetches *)

Section FetchProofs.

Import Fetch.
Local Open Scope Z_scope.

Variable parseTime : string -> Z -> option Z.

Lemma literal_complete_sahri d :
  literal o_Fajr (o_timings (complete d)) (o_date (complete d)) =
  Some (entry (Timings.sahriOf d)).
Proof. reflexivity. Qed.

Lemma literal_complete_iftar d :
  literal o_Maghrib (o_timings (complete d)) (o_date (complete d)) =
  Some (entry (Timings.iftarOf d)).
Proof. reflexivity. Qed.

(** On two complete bodies the [try] block stores the selection of lines
    167-191. *)
Lemma selected_complete now today dataToday dataTomorrow :
  selected parseTime now today (Some (complete dataToday))
    (Some (complete dataTomorrow)) =
  Some (stored (Timings.selectTimings parseTime now today
                  dataToday dataTomorrow)).
Proof.
  unfold selected, Timings.selectTimings, stored. simpl.
  destruct (Timings.date_gt now (parseTime (Timings.Fajr dataToday) today)),
           (Timings.date_gt now (parseTime (Timings.Maghrib dataToday) today));
    reflexivity.
Qed.

(** What the [try] block stores has both boundaries. *)
Lemma selected_both now today dataToday dataTomorrow fresh :
  selected parseTime now today dataToday dataTomorrow = Some fresh ->
  is_Some (s_sahri fresh) /\ is_Some (s_iftar fresh).
Proof.
  unfold selected.
  destruct dataToday as [dT|], dataTomorrow as [dM|]; try done.
  destruct (o_timings dT) as [tT|]; [|done].
  destruct (o_Fajr tT), (o_Maghrib tT); try done.
  repeat case_match; try done; intros [= <-]; by split.
Qed.

Lemma fetchTimings_failed v today now resToday resTomorrow :
  failed resToday \/ failed resTomorrow ->
  timings (fetchTimings parseTime v today now resToday resTomorrow) = timings v.
Proof.
  unfold fetchTimings. simpl.
  destruct resToday as [| |c1 d1], resTomorrow as [| |c2 d2];
    simpl; try done; case_decide; try done; intros [?|?]; lia.
Qed.

Lemma fetchTimings_succeeded v today now resToday resTomorrow
    dataToday dataTomorrow :
  succeeded resToday resTomorrow dataToday dataTomorrow ->
  timings (fetchTimings parseTime v today now resToday resTomorrow) =
  stored (Timings.selectTimings parseTime now today dataToday dataTomorrow).
Proof.
  intros [-> ->]. unfold fetchTimings.
  rewrite decide_True by done. by rewrite selected_complete.
Qed.

(** Of a success for tomorrow only the fields of a boundary that has
    passed are read: before both boundaries today's values are stored. *)
Lemma fetchTimings_before_boundaries v today now dataToday
    (dataTomorrow : DataObject) :
  Timings.date_gt now (parseTime (Timings.Fajr dataToday) today) = false ->
  Timings.date_gt now (parseTime (Timings.Maghrib dataToday) today) = false ->
  timings (fetchTimings parseTime v today now
             (Body 200 (Some (complete dataToday)))
             (Body 200 (Some dataTomorrow))) =
  mkStored (Some (entry (Timings.sahriOf dataToday)))
           (Some (entry (Timings.iftarOf dataToday))).
Proof.
  intros Hs Hi. unfold fetchTimings.
  rewrite decide_True by done. unfold selected. simpl.
  by rewrite Hs, Hi.
Qed.

(** C7: when either fetch fails (not reached, not a JSON body, or a code
    other than 200) the stored windows are left as they were, the view is
    what it was between refreshes, and on first load both cards show the
    placeholder. Whatever the two fetches return, what is stored
    afterwards is either the old windows untouched or two windows that do
    not depend on the old ones at all, never one boundary of each; two
    complete successes store the selection made from the two fresh
    bodies; and of a success for tomorrow only the fields of a boundary
    that has passed are read, so before both boundaries today's values
    are stored whatever tomorrow's body holds. *)
Theorem failed_fetch_keeps_window v today now (resToday resTomorrow : Fetched) :
  let v' := fetchTimings parseTime v today now resToday resTomorrow in
  (failed resToday \/ failed resTomorrow ->
     timings v' = timings v /\
     (loadingTimings v = false -> v' = v) /\
     (v = firstLoad ->
        shown v' (s_sahri (timings v')) = ShownPlaceholder /\
        shown v' (s_iftar (timings v')) = ShownPlaceholder)) /\
  (forall v2,
     let v2' := fetchTimings parseTime v2 today now resToday resTomorrow in
     (timings v' = timings v /\ timings v2' = timings v2) \/
     (timings v' = timings v2' /\
      is_Some (s_sahri (timings v')) /\ is_Some (s_iftar (timings v')) /\
      exists dataToday dataTomorrow,
        resToday = Body 200 dataToday /\ resTomorrow = Body 200 dataTomorrow)) /\
  (forall dataToday dataTomorrow,
     succeeded resToday resTomorrow dataToday dataTomorrow ->
     timings v' =
     stored (Timings.selectTimings parseTime now today dataToday dataTomorrow)) /\
  (forall dataToday (dataTomorrow : DataObject),
     resToday = Body 200 (Some (complete dataToday)) ->
     resTomorrow = Body 200 (Some dataTomorrow) ->
     Timings.date_gt now (parseTime (Timings.Fajr dataToday) today) = false ->
     Timings.date_gt now (parseTime (Timings.Maghrib dataToday) today) = false ->
     timings v' = mkStored (Some (entry (Timings.sahriOf dataToday)))
                           (Some (entry (Timings.iftarOf dataToday)))).
Proof.
  intros v'. split; [|split; [|split]].
  - intros Hf.
    pose proof (fetchTimings_failed v today now resToday resTomorrow Hf) as Hk.
    fold v' in Hk. split; [done|]. split.
    + intros Hl. destruct v as [t l]. simpl in *. subst l.
      unfold v', fetchTimings in *. simpl in *. by rewrite Hk.
    + intros ->. rewrite Hk. by unfold v', fetchTimings, shown.
  - intros v2 v2'. unfold v', v2', fetchTimings. simpl.
    destruct resToday as [| |c1 d1], resTomorrow as [| |c2 d2];
      try (by left).
    case_decide as Hc; [|by left]. destruct Hc as [-> ->].
    destruct (selected parseTime now today d1 d2) as [fresh|] eqn:Hsel;
      [|by left].
    right. destruct (selected_both now today d1 d2 fresh Hsel).
    split; [done|]. split; [done|]. split; [done|]. by exists d1, d2.
  - intros dataToday dataTomorrow. apply fetchTimings_succeeded.
  - intros dataToday dataTomorrow -> -> Hs Hi.
    by apply fetchTimings_before_boundaries.
Qed.

End FetchProofs.

(** ** Pagination *)

Section PaginationProofs.

Import Pagination.
Local Open Scope Z_scope.

(** [Math_ceil_div] is the ceiling of the quotient. *)
Lemma Math_ceil_div_spec a b :
  0 < b -> (Math_ceil_div a b - 1) * b < a <= Math_ceil_div a b * b.
Proof.
  intros Hb. unfold Math_ceil_div.
  pose proof (Z.div_mod a b ltac:(lia)) as Hdm.
  pose proof (Z.mod_pos_bound a b Hb) as Hm.
  destruct (Z.eqb_spec (a mod b) 0) as [E|E]; nia.
Qed.

Lemma totalPages_spec (length : nat) :
  (totalPages length - 1) * itemsPerPage < Z.of_nat length
    <= totalPages length * itemsPerPage.
Proof. apply Math_ceil_div_spec. by unfold itemsPerPage. Qed.

Lemma totalPages_pos (length : nat) : (0 < length)%nat -> 1 <= totalPages length.
Proof.
  intros H. pose proof (totalPages_spec length). unfold itemsPerPage in *. lia.
Qed.

Lemma totalPages_empty : totalPages 0 = 0.
Proof. reflexivity. Qed.

Lemma clampPage_cases (length : nat) p :
  (totalPages length < p /\ 0 < totalPages length /\
   clampPage length p = totalPages length) \/
  ((p <= totalPages length \/ totalPages length <= 0) /\
   clampPage length p = p).
Proof.
  unfold clampPage.
  destruct (Z.ltb_spec (totalPages length) p),
           (Z.ltb_spec 0 (totalPages length)); simpl; [left|right..]; lia.
Qed.

Lemma clampPage_empty p : clampPage 0 p = p.
Proof. pose proof totalPages_empty. destruct (clampPage_cases 0 p); lia. Qed.

Lemma clampPage_ge_1 (length : nat) p : 1 <= p -> 1 <= clampPage length p.
Proof. intros H. destruct (clampPage_cases length p); lia. Qed.

Lemma clampPage_in_range (length : nat) p :
  (0 < length)%nat -> 1 <= p -> 1 <= clampPage length p <= totalPages length.
Proof.
  intros Hn Hp. pose proof (totalPages_pos length Hn).
  destruct (clampPage_cases length p); lia.
Qed.

(** A page within range shows at least one event. *)
Lemma currentEvents_in_range {A : Type} (events : list A) p :
  1 <= p <= totalPages (length events) -> currentEvents events p <> [].
Proof.
  intros Hp Hnil. apply (f_equal length) in Hnil. revert Hnil.
  pose proof (totalPages_spec (length events)) as Hs.
  unfold currentEvents, slice, slice_index, itemsPerPage in *.
  rewrite length_take, length_drop. simpl.
  destruct (Z.ltb_spec ((p - 1) * 6) 0), (Z.ltb_spec (p * 6) 0); lia.
Qed.

Lemma pagerStep_ge_1 s e : 1 <= currentPage s -> 1 <= currentPage (pagerStep s e).
Proof.
  intros H. destruct e as [n'| | |i]; simpl.
  - by apply clampPage_ge_1.
  - destruct (_ && _); [|done]. simpl. apply clampPage_ge_1.
    unfold prevPage. lia.
  - destruct (1 <? totalPages (events_length s)) eqn:E; simpl; [|done].
    destruct (negb _); [|done]. simpl. apply clampPage_ge_1.
    apply Z.ltb_lt in E. unfold nextPage. lia.
  - destruct (_ && _); [|done]. simpl. apply clampPage_ge_1.
    unfold gotoPage. lia.
Qed.

Lemma runPager_ge_1 es : 1 <= currentPage (runPager es).
Proof.
  unfold runPager. induction es as [|e es IH] using rev_ind; [done|].
  rewrite foldl_snoc. by apply pagerStep_ge_1.
Qed.

(** After any history the page of a list that is not empty is in range. *)
Lemma pagerStep_in_range s e :
  1 <= currentPage s ->
  (events_length s <> 0%nat ->
   currentPage s <= totalPages (events_length s)) ->
  events_length (pagerStep s e) <> 0%nat ->
  currentPage (pagerStep s e) <= totalPages (events_length (pagerStep s e)).
Proof.
  intros H1 Hr. destruct e as [n'| | |i]; simpl.
  - intros Hn. apply clampPage_in_range; [lia|done].
  - destruct (_ && _); [|done]. simpl. intros Hn.
    apply clampPage_in_range; [lia|]. unfold prevPage. lia.
  - destruct (1 <? totalPages (events_length s)) eqn:E; simpl; [|done].
    destruct (negb _); [|done]. simpl. intros Hn.
    apply Z.ltb_lt in E. apply clampPage_in_range; [lia|].
    unfold nextPage. lia.
  - destruct (_ && _); [|done]. simpl. intros Hn.
    apply clampPage_in_range; [lia|]. unfold gotoPage. lia.
Qed.

Lemma runPager_in_range es :
  events_length (runPager es) <> 0%nat ->
  currentPage (runPager es) <= totalPages (events_length (runPager es)).
Proof.
  unfold runPager. induction es as [|e es IH] using rev_ind; [done|].
  rewrite foldl_snoc. apply pagerStep_in_range; [apply runPager_ge_1|done].
Qed.

Lemma clampPage_id (length : nat) p :
  p <= totalPages length -> clampPage length p = p.
Proof. intros H. destruct (clampPage_cases length p); lia. Qed.

Lemma clampPage_above (length : nat) p :
  0 < totalPages length -> totalPages length < p ->
  clampPage length p = totalPages length.
Proof. intros H0 H. destruct (clampPage_cases length p); lia. Qed.

(** C8, as the code has it: with the page size 6 the page count is the
    ceiling of count / 6 for every count (13 items give 3 pages); whenever
    the list shrinks to a count that is not zero the effect clamps the
    current page into [1, totalPages]: a page above the range becomes the
    last page, a page within it stays; so after any history of snapshots
    and clicks the page of a list that is not empty is in range and shows
    at least one event; deleting down to 6 items while on page 3 moves to
    page 1. *)
Theorem pagination_clamp :
  (forall length : nat,
     (totalPages length - 1) * itemsPerPage < Z.of_nat length
       <= totalPages length * itemsPerPage) /\
  totalPages 13 = 3 /\
  (forall (length : nat) p,
     0 < totalPages length -> totalPages length < p ->
     clampPage length p = totalPages length) /\
  (forall (length : nat) p,
     p <= totalPages length -> clampPage length p = p) /\
  (forall s (length : nat),
     length <> 0%nat -> 1 <= currentPage s ->
     pagerStep s (Snapshot length) =
     mkPager length (Z.min (currentPage s) (totalPages length))) /\
  (forall es (length : nat),
     length <> 0%nat ->
     1 <= currentPage (pagerStep (runPager es) (Snapshot length))
       <= totalPages length) /\
  (forall es,
     events_length (runPager es) <> 0%nat ->
     1 <= currentPage (runPager es)
       <= totalPages (events_length (runPager es))) /\
  (forall (A : Type) (events : list A) p,
     1 <= p <= totalPages (length events) -> currentEvents events p <> []) /\
  clampPage 6 3 = 1 /\ clampPage 13 5 = 3 /\
  runPager [Snapshot 13; ClickPage 2; Snapshot 6] = mkPager 6 1.
Proof.
  split; [apply totalPages_spec|]. split; [done|].
  split; [apply clampPage_above|]. split; [apply clampPage_id|]. split.
  { intros s n Hn Hp. simpl. f_equal.
    pose proof (totalPages_pos n ltac:(lia)).
    destruct (Z.le_gt_cases (currentPage s) (totalPages n)).
    - rewrite clampPage_id by done. lia.
    - rewrite clampPage_above by lia. lia. }
  split.
  { intros es n Hn. simpl. apply clampPage_in_range; [lia|].
    apply runPager_ge_1. }
  split.
  { intros es Hn. split; [apply runPager_ge_1|by apply runPager_in_range]. }
  split; [intros A events p; apply currentEvents_in_range|].
  split; [done|]. by split.
Qed.

(** C8 as stated fails when the list shrinks to nothing: the effect
    leaves page 3 where it is, and no page lies in [1, 0]. *)
Lemma clamp_on_empty_list_counterexample :
  totalPages 0 = 0 /\ clampPage 0 3 = 3 /\
  ~ (1 <= clampPage 0 3 <= totalPages 0) /\
  currentEvents ([] : list nat) (clampPage 0 3) = [].
Proof. split; [done|]. split; [done|]. split; [|done]. vm_compute. intuition congruence. Qed.

(** C10: an empty list gives 0 pages, on which the effect does not fire
    and the page keeps its value; every way the page is set gives a value
    of at least 1, so [currentPage >= 1] holds after any history of
    snapshots and clicks; and whenever the list is empty the page is
    above the page count, as after 13 events, a click on page 3 and a
    snapshot with no events, which leaves page 3 of 0. *)
Theorem empty_list_keeps_page :
  totalPages 0 = 0 /\
  (forall p, clampPage 0 p = p) /\
  (forall es, 1 <= currentPage (runPager es)) /\
  (forall es, events_length (runPager es) = 0%nat ->
     totalPages (events_length (runPager es)) < currentPage (runPager es)) /\
  runPager [Snapshot 13; ClickPage 2; Snapshot 0] = mkPager 0 3.
Proof.
  split; [done|]. split; [apply clampPage_empty|].
  split; [apply runPager_ge_1|].
  split; [|done]. intros es ->. pose proof (runPager_ge_1 es).
  rewrite totalPages_empty. lia.
Qed.

End PaginationProofs.

(** ** Admin login and password change *)

Section AdminProofs.

Import Admin.

Example login_wrong_password :
  toggleAdmin admin0 (Some "letmein") =
  (admin0, [Prompt "Enter Admin Password:" (Some "letmein");
            Alert "Incorrect password!"]).
Proof. reflexivity. Qed.

Example change_password_mismatch :
  handleChangePassword admin0 (Some "ramadan") (Some "ramadam") true =
  (admin0, [Prompt "Enter New Admin Password:" (Some "ramadan");
            Prompt "Confirm New Admin Password:" (Some "ramadam");
            Alert "Passwords do not match!"]).
Proof. reflexivity. Qed.

(** An empty first entry ends the change before the confirmation is
    asked for. *)
Lemma confirmation_asked s newPass confirmPass setDoc_ok :
  entries (snd (handleChangePassword s newPass confirmPass setDoc_ok)) =
  if falsy newPass then [newPass] else [newPass; confirmPass].
Proof.
  unfold handleChangePassword.
  destruct (falsy newPass) eqn:E; [done|].
  case_decide; [done|]. by destruct newPass, setDoc_ok.
Qed.

(** C9: a login with any entered password other than the stored one
    alerts an error and leaves the admin flag false (and the rest of the
    state alone); a password change whose new password and confirmation
    entries do not match alerts an error and leaves the stored password,
    in the component and in the settings document, unchanged. (The
    confirmation is asked for after any new password that is not empty;
    an empty one ends the change at once, also without a change.) *)
Theorem admin_mismatch_rejected :
  (forall s (pass : string),
     isAdmin s = false -> pass <> adminPassword s ->
     alerts (snd (toggleAdmin s (Some pass))) = ["Incorrect password!"] /\
     isAdmin (fst (toggleAdmin s (Some pass))) = false /\
     fst (toggleAdmin s (Some pass)) = s) /\
  (forall s (newPass : string) (confirmPass : option string) setDoc_ok,
     newPass <> "" ->
     Some newPass <> confirmPass ->
     entries (snd (handleChangePassword s (Some newPass) confirmPass setDoc_ok))
       = [Some newPass; confirmPass] /\
     alerts (snd (handleChangePassword s (Some newPass) confirmPass setDoc_ok))
       = ["Passwords do not match!"] /\
     fst (handleChangePassword s (Some newPass) confirmPass setDoc_ok) = s) /\
  (forall s (newPass confirmPass : option string) setDoc_ok,
     newPass <> confirmPass ->
     fst (handleChangePassword s newPass confirmPass setDoc_ok) = s).
Proof.
  split; [|split].
  - intros s pass Hs Hne. unfold toggleAdmin. rewrite Hs.
    rewrite decide_False by congruence. by rewrite decide_True.
  - intros s newPass confirmPass ok Hne Hdiff.
    unfold handleChangePassword. simpl.
    rewrite (decide_False (P := newPass = "")) by done.
    by rewrite decide_True.
  - intros s newPass confirmPass ok Hne. unfold handleChangePassword.
    destruct (falsy newPass); [done|]. by rewrite decide_True.
Qed.

End AdminProofs.

(** * Further properties of the handlers *)

(** ** Votes: frame, collapse of runs, commuting pages *)

Section VoteAlgebraProofs.

Import Votes Community VoteAlgebra.
Local Open Scope Z_scope.

Implicit Types (db : gmap string IftarEvent) (userVotes u : gmap string VoteType).
Implicit Types (id : string) (type t : VoteType) (ev : IftarEvent).
Implicit Types (w : World) (d : nat).

Lemma recorded_lookup_ne u id id' type :
  id' <> id -> recorded u id type !! id' = u !! id'.
Proof.
  intros H. unfold recorded.
  case_decide; [by apply lookup_delete_ne | by apply lookup_insert_ne].
Qed.

Lemma dbAfter_lookup_ne db id id' currentVote type :
  id' <> id -> dbAfter db id currentVote type !! id' = db !! id'.
Proof.
  intros H. unfold dbAfter. destruct (db !! id); [|done].
  by apply lookup_insert_ne.
Qed.

Lemma dbAfter_lookup_eq db id currentVote type :
  dbAfter db id currentVote type !! id = moved currentVote type <$> db !! id.
Proof.
  unfold dbAfter. destruct (db !! id) eqn:E; simpl; [|done].
  apply lookup_insert_eq.
Qed.

(** X1: a vote on one event leaves every other event of the collection
    and the page's record for every other event as they were, whether or
    not the event voted on still exists. *)
Theorem handleVote_frame db userVotes id type id' :
  id' <> id ->
  fst (handleVote db userVotes id type) !! id' = db !! id' /\
  snd (handleVote db userVotes id type) !! id' = userVotes !! id'.
Proof.
  intros Hne. rewrite handleVote_closed. simpl. split.
  - by apply dbAfter_lookup_ne.
  - unfold recAfter. destruct (db !! id); [|done].
    by apply recorded_lookup_ne.
Qed.

Lemma handleVote_frame_witness :
  "F" <> "E" /\
  fst (handleVote {["E" := ev21; "F" := ev21]} {["F" := VTrue]} "E" VFalse)
    !! "F" = ({["E" := ev21; "F" := ev21]} : gmap string IftarEvent) !! "F" /\
  snd (handleVote {["E" := ev21; "F" := ev21]} {["F" := VTrue]} "E" VFalse)
    !! "F" = ({["F" := VTrue]} : gmap string VoteType) !! "F".
Proof.
  split; [done|].
  apply (handleVote_frame {["E" := ev21; "F" := ev21]} {["F" := VTrue]}
           "E" VFalse "F"). done.
Defined.

(** The whole record after a run that is not empty. *)
Lemma handleVotes_record types : forall db userVotes id ev,
  db !! id = Some ev -> id ∉ Object_prototype -> types <> [] ->
  snd (handleVotes db userVotes id types) =
  match foldl toggle (userVotes !! id) types with
  | Some c => <[id := c]> userVotes
  | None => delete id userVotes
  end.
Proof.
  induction types as [|type types IH]; intros db userVotes id ev Hev Hp Hne;
    [done|].
  rewrite handleVotes_cons.
  destruct (handleVote_step db userVotes id type ev Hev Hp)
    as (ev1 & -> & _ & _). simpl.
  destruct types as [|type' types]; [done|].
  erewrite IH; [| |done|done].
  - destruct (toggle (userVotes !! id) type) as [c|].
    + rewrite lookup_insert_eq.
      destruct (foldl toggle (Some c) (type' :: types));
        [apply insert_insert_eq | apply delete_insert_eq].
    + rewrite lookup_delete_eq.
      destruct (foldl toggle None (type' :: types));
        [apply insert_delete_eq | apply delete_delete_eq].
  - apply lookup_insert_eq.
Qed.

(** X2: on an event whose id is not the name of an inherited member,
    from no record, a whole run of clicks of one page leaves the
    collection and the vote record exactly as one click for the choice
    left standing would, or untouched when nothing is left standing. *)
Theorem handleVotes_collapse db userVotes id ev types :
  db !! id = Some ev -> id ∉ Object_prototype -> userVotes !! id = None ->
  handleVotes db userVotes id types =
  match last_standing types with
  | Some c => handleVote db userVotes id c
  | None => (db, userVotes)
  end.
Proof.
  intros Hev Hp Hrec.
  destruct types as [|type types]; [done|].
  destruct (handleVotes_effect (type :: types) db userVotes id ev Hev Hp)
    as (ev' & Hdb & Hl & Hr & Hc).
  pose proof (handleVotes_record (type :: types) db userVotes id ev Hev Hp
                ltac:(done)) as Hu.
  rewrite Hrec, foldl_toggle_last_standing in Hr, Hu.
  rewrite (surjective_pairing (handleVotes db userVotes id (type :: types))).
  rewrite Hdb, Hu.
  pose proof (Hc VTrue) as Ht. pose proof (Hc VFalse) as Hf.
  rewrite (holds_absent VTrue id userVotes) in Ht by done.
  rewrite (holds_absent VFalse id userVotes) in Hf by done.
  unfold holds in Ht, Hf. rewrite Hr in Ht, Hf. simpl in Ht, Hf.
  destruct (last_standing (type :: types)) as [c|].
  - rewrite (handleVote_new db userVotes id c ev) by done. simpl.
    f_equal. f_equal. apply event_ext.
    + pose proof (same_listing_increment ev (voteField c, 1)).
      unfold same_listing in *. intuition congruence.
    + destruct c; simpl; repeat case_decide; try congruence; lia.
    + destruct c; simpl; repeat case_decide; try congruence; lia.
  - simpl. f_equal; [|by apply delete_id].
    assert (ev' = ev) as ->; [|by apply insert_id].
    apply event_ext; [done| |]; repeat case_decide; try congruence; lia.
Qed.

Lemma handleVotes_collapse_witness :
  ({["E" := ev21]} : gmap string IftarEvent) !! "E" = Some ev21 /\
  ("E" ∉ Object_prototype) /\
  (∅ : gmap string VoteType) !! "E" = None /\
  handleVotes {["E" := ev21]} ∅ "E" [VTrue; VFalse; VFalse; VTrue; VFalse] =
  match last_standing [VTrue; VFalse; VFalse; VTrue; VFalse] with
  | Some c => handleVote {["E" := ev21]} ∅ "E" c
  | None => ({["E" := ev21]}, ∅)
  end.
Proof.
  split; [vm_compute; reflexivity|]. split; [apply E_plain|].
  split; [vm_compute; reflexivity|].
  apply (handleVotes_collapse {["E" := ev21]} ∅ "E" ev21);
    [vm_compute; reflexivity|apply E_plain|vm_compute; reflexivity].
Defined.

End VoteAlgebraProofs.

(** ** Several pages: commuting votes, deleted and new events *)

Section CommunityAlgebra.

Import Votes Community VoteAlgebra.
Local Open Scope Z_scope.

Implicit Types (db : gmap string IftarEvent) (u : gmap string VoteType).
Implicit Types (id : string) (type t : VoteType) (ev : IftarEvent).
Implicit Types (w : World) (d : nat).

Lemma vote_closed w d id type u :
  devices w !! d = Some u ->
  vote w d id type =
  mkWorld (dbAfter (db w) id (read u id) type) (issued w)
          (<[d := recAfter (db w) u id type]> (devices w)).
Proof. intros H. unfold vote. by rewrite H, handleVote_closed. Qed.

Lemma vote_absent w d id type :
  devices w !! d = None -> vote w d id type = w.
Proof. intros H. unfold vote. by rewrite H. Qed.

Lemma vote_devices_other w d d' id type :
  d' <> d -> devices (vote w d id type) !! d' = devices w !! d'.
Proof.
  intros H. unfold vote. destruct (devices w !! d); [|done]. simpl.
  by apply list_lookup_insert_ne.
Qed.

Lemma moved_comm c1 t1 c2 t2 ev :
  moved c1 t1 (moved c2 t2 ev) = moved c2 t2 (moved c1 t1 ev).
Proof.
  destruct (moved_shift c1 t1) as (a1 & b1 & H1).
  destruct (moved_shift c2 t2) as (a2 & b2 & H2).
  rewrite !H1, !H2, !shift_shift. f_equal; lia.
Qed.

Lemma dbAfter_comm db id1 c1 t1 id2 c2 t2 :
  dbAfter (dbAfter db id1 c1 t1) id2 c2 t2 =
  dbAfter (dbAfter db id2 c2 t2) id1 c1 t1.
Proof.
  apply map_eq. intros k.
  destruct (decide (id1 = id2)) as [->|Hne].
  - destruct (decide (k = id2)) as [->|Hk].
    + rewrite !dbAfter_lookup_eq. destruct (db !! id2); simpl; [|done].
      by rewrite moved_comm.
    + by rewrite !dbAfter_lookup_ne.
  - destruct (decide (k = id1)) as [->|Hk1].
    + rewrite dbAfter_lookup_ne, !dbAfter_lookup_eq by done.
      by rewrite dbAfter_lookup_ne.
    + destruct (decide (k = id2)) as [->|Hk2].
      * rewrite dbAfter_lookup_eq, !dbAfter_lookup_ne by done.
        by rewrite dbAfter_lookup_eq.
      * by rewrite !dbAfter_lookup_ne.
Qed.

Lemma recAfter_dbAfter db id' currentVote type' u id type :
  recAfter (dbAfter db id' currentVote type') u id type = recAfter db u id type.
Proof.
  unfold recAfter. destruct (decide (id = id')) as [->|Hne].
  - rewrite dbAfter_lookup_eq. by destruct (db !! id').
  - by rewrite dbAfter_lookup_ne.
Qed.

(** X3: clicks of two different pages commute: whatever the events and
    choices, handling them in either order leaves the same collection and
    the same records on every page. *)
Theorem votes_of_two_devices_commute w d1 id1 t1 d2 id2 t2 :
  d1 <> d2 ->
  vote (vote w d1 id1 t1) d2 id2 t2 = vote (vote w d2 id2 t2) d1 id1 t1.
Proof.
  intros Hne.
  destruct (devices w !! d1) as [u1|] eqn:H1;
    destruct (devices w !! d2) as [u2|] eqn:H2.
  - rewrite (vote_closed (vote w d1 id1 t1) d2 id2 t2 u2)
      by (by rewrite vote_devices_other).
    rewrite (vote_closed (vote w d2 id2 t2) d1 id1 t1 u1)
      by (by rewrite vote_devices_other).
    rewrite (vote_closed w d1 id1 t1 u1), (vote_closed w d2 id2 t2 u2) by done.
    simpl. f_equal.
    + apply dbAfter_comm.
    + rewrite !recAfter_dbAfter. apply list_insert_insert_ne. congruence.
  - rewrite (vote_absent w d2) by done.
    apply vote_absent. by rewrite vote_devices_other.
  - rewrite (vote_absent w d1) by done. symmetry.
    apply vote_absent. by rewrite vote_devices_other.
  - by rewrite !(vote_absent w) by done.
Qed.

Lemma votes_of_two_devices_commute_witness :
  0%nat <> 1%nat /\
  vote (vote (join (join (handleAddEvent init "E" sampleForm)))
          0 "E" VTrue) 1 "E" VFalse =
  vote (vote (join (join (handleAddEvent init "E" sampleForm)))
          1 "E" VFalse) 0 "E" VTrue.
Proof.
  split; [done|].
  apply (votes_of_two_devices_commute
           (join (join (handleAddEvent init "E" sampleForm)))
           0 "E" VTrue 1 "E" VFalse). done.
Defined.

Lemma vote_on_missing w d id type : db w !! id = None -> vote w d id type = w.
Proof.
  intros H. unfold vote. destruct (devices w !! d) as [u|] eqn:Hd; [|done].
  rewrite handleVote_missing by done. simpl.
  rewrite list_insert_id by done. by destruct w.
Qed.

(** X4: once an event is deleted, no run of vote clicks on it, by any
    pages, changes anything: the event does not come back, and the
    records the pages held for it stay as they were. *)
Theorem votes_after_delete w id clicks :
  votesOn (handleDelete w id) id clicks = handleDelete w id /\
  db (votesOn (handleDelete w id) id clicks) !! id = None /\
  devices (votesOn (handleDelete w id) id clicks) = devices w.
Proof.
  assert (H : votesOn (handleDelete w id) id clicks = handleDelete w id).
  { unfold votesOn. induction clicks as [|c clicks IH] using rev_ind; [done|].
    rewrite foldl_snoc, IH. apply vote_on_missing. simpl.
    apply lookup_delete_eq. }
  rewrite H. simpl. split; [done|]. split; [apply lookup_delete_eq|done].
Qed.

Lemma reachable_records_issued w u id :
  reachable w -> u ∈ devices w -> id ∉ issued w -> u !! id = None.
Proof.
  intros [_ Hr]%reachable_tracked Hu Hfresh.
  destruct (u !! id) eqn:E; [|done]. exfalso. apply Hfresh.
  eapply Hr; [done|]. by rewrite E.
Qed.

(** X5: in any reachable state, pages opened on another page's saved
    record included, an event added with a name and a location starts
    with both counters at 0 and with no page holding a record for it, and
    every other event is left as it was; when its id is not the name of an
    inherited member, the first click on it by any page brings the
    counter of the choice to 1 and leaves the other at 0. *)
Theorem new_event_starts_unvoted w id newEvent :
  reachable w -> id ∉ issued w ->
  new_mosque_name newEvent <> "" -> new_location newEvent <> "" ->
  let w' := handleAddEvent w id newEvent in
  db w' !! id = Some (eventData newEvent) /\
  true_votes (eventData newEvent) = 0 /\
  false_votes (eventData newEvent) = 0 /\
  (forall u, u ∈ devices w' -> u !! id = None) /\
  (forall id', id' <> id -> db w' !! id' = db w !! id') /\
  (id ∉ Object_prototype ->
   forall d u type, devices w' !! d = Some u ->
     exists ev, db (vote w' d id type) !! id = Some ev /\
       counter type ev = 1 /\ counter (other type) ev = 0).
Proof.
  intros Hw Hfresh Hn Hl w'.
  assert (Hw' : w' = mkWorld (<[id := eventData newEvent]> (db w))
                       ({[id]} ∪ issued w) (devices w)).
  { unfold w', handleAddEvent. rewrite decide_False; [done|]. tauto. }
  rewrite Hw'. simpl.
  split; [apply lookup_insert_eq|]. split; [done|]. split; [done|].
  split; [intros u Hu; by eapply reachable_records_issued|].
  split; [intros id' Hne; by apply lookup_insert_ne|].
  intros Hp d u type Hd. unfold vote. simpl. rewrite Hd.
  rewrite (handleVote_new _ u id type (eventData newEvent)).
  - simpl. rewrite lookup_insert_eq. eexists. split; [done|].
    destruct type; simpl; lia.
  - apply lookup_insert_eq.
  - done.
  - eapply reachable_records_issued; [done| |done].
    by eapply list_elem_of_lookup_2.
Qed.

Lemma new_event_starts_unvoted_witness :
  reachable (join init) /\ ("E" ∉ issued (join init)) /\
  new_mosque_name sampleForm <> "" /\ new_location sampleForm <> "" /\
  db (handleAddEvent (join init) "E" sampleForm) !! "E"
    = Some (eventData sampleForm) /\
  (forall u, u ∈ devices (handleAddEvent (join init) "E" sampleForm) ->
     u !! "E" = None).
Proof.
  assert (Hr : reachable (join init))
    by (eapply reachable_step; [apply reachable_init | apply step_join]).
  assert (Hf : "E" ∉ issued (join init)) by apply not_elem_of_empty.
  split; [done|]. split; [done|]. split; [done|]. split; [done|].
  pose proof (new_event_starts_unvoted (join init) "E" sampleForm
                Hr Hf ltac:(done) ltac:(done)) as (H1 & _ & _ & H2 & _).
  by split.
Defined.

End CommunityAlgebra.

(** ** The day buttons of the add dialog *)

Section FormProofs.

Import Votes Community Form.

Implicit Types (prev : NewEvent) (dayId d : string) (dayIds : list string).

Lemma filter_keeps_all (P : string -> Prop) `{forall x, Decision (P x)}
    (l : list string) :
  (forall x, x ∈ l -> P x) -> filter P l = l.
Proof.
  induction l as [|x l IH]; intros Hl; [done|].
  rewrite filter_cons_True by (apply Hl; left).
  f_equal. apply IH. intros y Hy. apply Hl. by right.
Qed.

Lemma filter_keeps_none (P : string -> Prop) `{forall x, Decision (P x)}
    (l : list string) :
  (forall x, x ∈ l -> ~ P x) -> filter P l = [].
Proof.
  induction l as [|x l IH]; intros Hl; [done|].
  rewrite filter_cons_False by (apply Hl; left).
  apply IH. intros y Hy. apply Hl. by right.
Qed.

Lemma toggleDay_days prev dayId :
  new_specific_days (toggleDay prev dayId) =
  if bool_decide (dayId ∈ new_specific_days prev)
  then filter (fun d => d <> dayId) (new_specific_days prev)
  else new_specific_days prev ++ [dayId].
Proof. reflexivity. Qed.

Lemma toggleDay_flips prev dayId :
  dayId ∈ new_specific_days (toggleDay prev dayId) <->
  dayId ∉ new_specific_days prev.
Proof.
  rewrite toggleDay_days. case_bool_decide as H.
  - rewrite list_elem_of_filter. tauto.
  - rewrite elem_of_app, list_elem_of_singleton. tauto.
Qed.

Lemma toggleDay_other prev dayId d :
  d <> dayId ->
  d ∈ new_specific_days (toggleDay prev dayId) <-> d ∈ new_specific_days prev.
Proof.
  intros Hne. rewrite toggleDay_days. case_bool_decide as H.
  - rewrite list_elem_of_filter. tauto.
  - rewrite elem_of_app, list_elem_of_singleton. tauto.
Qed.

Lemma toggleDay_NoDup prev dayId :
  NoDup (new_specific_days prev) ->
  NoDup (new_specific_days (toggleDay prev dayId)).
Proof.
  intros Hn. rewrite toggleDay_days. case_bool_decide as H.
  - by apply NoDup_filter.
  - apply NoDup_app. split; [done|]. split; [|apply NoDup_singleton].
    intros x Hx ->%list_elem_of_singleton. done.
Qed.

(** X6: a click on a day button flips whether that day is selected,
    leaves every other day selected or not as it was, never duplicates a
    day, and touches no other field of the form. *)
Theorem toggleDay_flips_one_day prev dayId :
  (dayId ∈ new_specific_days (toggleDay prev dayId) <->
   dayId ∉ new_specific_days prev) /\
  (forall d, d <> dayId ->
     (d ∈ new_specific_days (toggleDay prev dayId) <->
      d ∈ new_specific_days prev)) /\
  (dayId ∉ filter (fun d => d <> dayId) (new_specific_days prev)) /\
  new_mosque_name (toggleDay prev dayId) = new_mosque_name prev /\
  new_location (toggleDay prev dayId) = new_location prev /\
  new_date (toggleDay prev dayId) = new_date prev /\
  new_description (toggleDay prev dayId) = new_description prev /\
  new_schedule_type (toggleDay prev dayId) = new_schedule_type prev.
Proof.
  split; [apply toggleDay_flips|]. split; [intros d; apply toggleDay_other|].
  split; [|done]. rewrite list_elem_of_filter. tauto.
Qed.

Lemma odd_succ_negb n : Nat.odd (S n) = negb (Nat.odd n).
Proof. rewrite Nat.odd_succ. by rewrite <- Nat.negb_odd. Qed.

(** X7: after any run of clicks on day buttons from the initial form, a
    day is selected exactly when its button was clicked an odd number of
    times; the selection never holds a day twice, so with the seven
    buttons of [daysOfWeek] it never holds more than seven days. *)
Theorem toggleDays_selection dayIds :
  (forall d, d ∈ new_specific_days (toggleDays emptyForm dayIds) <->
             Nat.odd (length (filter (fun x => x = d) dayIds)) = true) /\
  NoDup (new_specific_days (toggleDays emptyForm dayIds)) /\
  ((forall d, d ∈ dayIds -> d ∈ daysOfWeek.*1) ->
   length (new_specific_days (toggleDays emptyForm dayIds)) <= 7).
Proof.
  assert (Hodd : forall d,
            d ∈ new_specific_days (toggleDays emptyForm dayIds) <->
            Nat.odd (length (filter (fun x => x = d) dayIds)) = true).
  { unfold toggleDays.
    induction dayIds as [|dayId dayIds IH] using rev_ind; intros d.
    - simpl. split; [by intros ?%elem_of_nil|done].
    - rewrite foldl_snoc, filter_app, length_app.
      destruct (decide (d = dayId)) as [->|Hne].
      + rewrite toggleDay_flips, IH.
        rewrite filter_cons_True by done. simpl.
        rewrite Nat.add_1_r, odd_succ_negb.
        destruct (Nat.odd _); simpl; split; congruence.
      + rewrite toggleDay_other, IH by done.
        rewrite filter_cons_False by congruence. simpl.
        by rewrite Nat.add_0_r. }
  assert (Hnd : NoDup (new_specific_days (toggleDays emptyForm dayIds))).
  { clear Hodd. unfold toggleDays.
    induction dayIds as [|dayId dayIds IH] using rev_ind;
      [apply NoDup_nil_2|].
    rewrite foldl_snoc. by apply toggleDay_NoDup. }
  split; [done|]. split; [done|]. intros Hweek.
  change 7 with (length (daysOfWeek.*1)).
  apply submseteq_length, NoDup_submseteq; [done|].
  intros d Hd%Hodd. apply Hweek.
  destruct (decide (d ∈ dayIds)) as [|Hn]; [done|].
  exfalso. revert Hd.
  replace (filter (fun x => x = d) dayIds) with (@nil string); [done|].
  symmetry. apply filter_keeps_none. intros x Hx ->. done.
Qed.

(** X8: clicking the same day twice gives back the same days; the form
    itself when the day was not selected, and otherwise the same days
    with the clicked one moved to the end. *)
Theorem toggleDay_twice prev dayId :
  NoDup (new_specific_days prev) ->
  new_specific_days (toggleDay (toggleDay prev dayId) dayId)
    ≡ₚ new_specific_days prev /\
  (dayId ∉ new_specific_days prev ->
   toggleDay (toggleDay prev dayId) dayId = prev) /\
  (dayId ∈ new_specific_days prev ->
   new_specific_days (toggleDay (toggleDay prev dayId) dayId) =
   filter (fun d => d <> dayId) (new_specific_days prev) ++ [dayId]).
Proof.
  intros Hn. split; [|split].
  - apply NoDup_Permutation; [by do 2 apply toggleDay_NoDup|done|].
    intros d. destruct (decide (d = dayId)) as [->|Hne].
    + rewrite !toggleDay_flips. destruct (decide (dayId ∈ new_specific_days prev)); tauto.
    + by rewrite !toggleDay_other.
  - intros Hnot. destruct prev as [n l dt ds st days]. simpl in *.
    unfold toggleDay. simpl.
    rewrite (bool_decide_eq_false_2 _ Hnot). simpl.
    rewrite bool_decide_eq_true_2
      by (rewrite elem_of_app, list_elem_of_singleton; by right).
    f_equal. rewrite filter_app, filter_cons_False by tauto.
    rewrite filter_nil, app_nil_r.
    apply filter_keeps_all. intros x Hx ->. done.
  - intros Hin. rewrite !toggleDay_days.
    rewrite (bool_decide_eq_true_2 _ Hin).
    rewrite bool_decide_eq_false_2; [done|].
    rewrite list_elem_of_filter. tauto.
Qed.

Lemma toggleDay_twice_witness :
  NoDup (new_specific_days (toggleDays emptyForm ["sat"; "fri"])) /\
  new_specific_days
    (toggleDay (toggleDay (toggleDays emptyForm ["sat"; "fri"]) "sat") "sat")
    ≡ₚ new_specific_days (toggleDays emptyForm ["sat"; "fri"]).
Proof.
  assert (Hn : NoDup (new_specific_days (toggleDays emptyForm ["sat"; "fri"])))
    by (apply (bool_decide_unpack _); vm_compute; exact I).
  split; [done|].
  apply (toggleDay_twice (toggleDays emptyForm ["sat"; "fri"]) "sat" Hn).
Defined.

End FormProofs.

(** ** Pages of the list *)

Section PagesProofs.

Import Pagination Pages.
Local Open Scope Z_scope.

Context {A : Type}.
Implicit Types (events : list A) (p : Z) (i : nat).

(** The page behind button [i] is the [i]-th block of six. *)
Lemma currentEvents_chunk events i :
  currentEvents events (gotoPage i) = take 6 (drop (6 * i) events).
Proof.
  unfold currentEvents, slice, slice_index, gotoPage, itemsPerPage.
  destruct (Z.ltb_spec ((Z.of_nat i + 1 - 1) * 6) 0); [lia|].
  destruct (Z.ltb_spec ((Z.of_nat i + 1) * 6) 0); [lia|].
  destruct (decide (length events <= 6 * i)%nat) as [Hge|Hlt].
  - rewrite (drop_ge events (6 * i)) by done.
    rewrite drop_ge by lia. by rewrite !take_nil.
  - replace (Z.to_nat (Z.min ((Z.of_nat i + 1 - 1) * 6)
                         (Z.of_nat (length events)))) with (6 * i)%nat by lia.
    destruct (decide (6 * i + 6 <= length events)%nat).
    + f_equal. lia.
    + rewrite !take_ge; [done|rewrite length_drop; lia..].
Qed.

Lemma chunks_concat events (k : nat) :
  concat ((fun i => take 6 (drop (6 * i) events)) <$> seq 0 k) =
  take (6 * k) events.
Proof.
  induction k as [|k IH]; [done|].
  rewrite seq_S, fmap_app, concat_app, IH. simpl.
  rewrite app_nil_r, take_take_drop. f_equal. lia.
Qed.

Lemma pages_concat events : concat (pages events) = events.
Proof.
  unfold pages.
  erewrite (list_fmap_ext _ (fun i => take 6 (drop (6 * i) events)));
    [|intros i x _; apply currentEvents_chunk].
  rewrite chunks_concat. apply take_ge.
  pose proof (totalPages_spec (length events)).
  unfold itemsPerPage in *. lia.
Qed.

Lemma pageNumbers_shown events :
  (6 < length events)%nat ->
  pageNumbers (length events)
    = gotoPage <$> seq 0 (Z.to_nat (totalPages (length events))).
Proof.
  intros H. unfold pageNumbers.
  pose proof (totalPages_spec (length events)). unfold itemsPerPage in *.
  destruct (Z.ltb_spec 1 (totalPages (length events))); [done|lia].
Qed.

(** X9: the pages from 1 to the last, one after the other, are the event
    list: every event is on exactly one page, in the order of the list.
    The page bar is left out exactly when the list has at most six
    events, and page 1 then shows the whole list; on a longer list the
    pages behind the buttons of the bar, one after the other, are the
    list, and none of them is empty. *)
Theorem pages_partition events :
  concat (pages events) = events /\
  (pageNumbers (length events) = [] <-> (length events <= 6)%nat) /\
  ((length events <= 6)%nat -> currentEvents events 1 = events) /\
  ((6 < length events)%nat ->
     concat (currentEvents events <$> pageNumbers (length events)) = events /\
     Forall (fun p => currentEvents events p <> [])
       (pageNumbers (length events))).
Proof.
  pose proof (totalPages_spec (length events)) as Hs.
  unfold itemsPerPage in Hs.
  split; [apply pages_concat|]. split; [|split].
  - split.
    + intros Hnil. destruct (decide (length events <= 6)%nat); [done|].
      rewrite pageNumbers_shown in Hnil by lia.
      apply (f_equal length) in Hnil.
      rewrite length_fmap, length_seq in Hnil. simpl in Hnil. lia.
    + intros Hle. unfold pageNumbers.
      destruct (Z.ltb_spec 1 (totalPages (length events))); [lia|done].
  - intros Hle. change 1 with (gotoPage 0). rewrite currentEvents_chunk.
    simpl. by apply take_ge.
  - intros Hlt. rewrite pageNumbers_shown by done. split.
    + rewrite <- list_fmap_compose. apply pages_concat.
    + apply Forall_fmap, Forall_forall. intros i Hi%elem_of_seq.
      unfold compose. rewrite currentEvents_chunk. intros Hnil.
      apply (f_equal length) in Hnil.
      rewrite length_take, length_drop in Hnil.
      change (length (@nil A)) with 0%nat in Hnil. lia.
Qed.

Lemma length_chunk events i :
  length (take 6 (drop (6 * i) events)) = (6 `min` (length events - 6 * i))%nat.
Proof. by rewrite length_take, length_drop. Qed.

(** X10: every page from 1 on shows at most six events; every page
    before the last shows exactly six, the last one at least one, and a
    page past the last shows none. *)
Theorem page_sizes events p :
  1 <= p ->
  (length (currentEvents events p) <= 6)%nat /\
  (p < totalPages (length events) ->
     length (currentEvents events p) = 6%nat) /\
  (p = totalPages (length events) ->
     (1 <= length (currentEvents events p))%nat) /\
  (totalPages (length events) < p -> currentEvents events p = []).
Proof.
  intros Hp.
  replace p with (gotoPage (Z.to_nat (p - 1))) by (unfold gotoPage; lia).
  rewrite currentEvents_chunk.
  pose proof (totalPages_spec (length events)) as Hs.
  unfold itemsPerPage, gotoPage in *.
  rewrite length_chunk.
  split; [lia|]. split; [lia|]. split; [lia|].
  intros Hpast. apply nil_length_inv. rewrite length_chunk. lia.
Qed.

End PagesProofs.

Lemma page_sizes_witness :
  (1 <= 2)%Z /\
  (length (Pagination.currentEvents [1; 2; 3; 4; 5; 6; 7; 8]%nat 2) <= 6)%nat /\
  (1 <= length (Pagination.currentEvents [1; 2; 3; 4; 5; 6; 7; 8]%nat 2))%nat.
Proof.
  split; [lia|].
  pose proof (page_sizes [1; 2; 3; 4; 5; 6; 7; 8]%nat 2 ltac:(lia))
    as (H1 & _ & H2 & _).
  split; [done|]. by apply H2.
Defined.


Section PagerClicks.

Import Pagination.
Local Open Scope Z_scope.

(** X11: on a page bar that is shown, Next and then Prev from any page
    but the last, and Prev and then Next from any page but the first,
    come back to the same page; a numbered button lands on its number;
    and no click changes the list. *)
Theorem pager_clicks_inverse s :
  1 <= currentPage s <= totalPages (events_length s) ->
  (currentPage s < totalPages (events_length s) ->
     pagerStep (pagerStep s ClickNext) ClickPrev = s) /\
  (1 < currentPage s ->
     pagerStep (pagerStep s ClickPrev) ClickNext = s) /\
  (forall i, 1 < totalPages (events_length s) ->
     Z.of_nat i < totalPages (events_length s) ->
     pagerStep s (ClickPage i) = mkPager (events_length s) (Z.of_nat i + 1)) /\
  (forall e, match e with Snapshot _ => True
             | _ => events_length (pagerStep s e) = events_length s end).
Proof.
  intros Hr. destruct s as [n p]. simpl in *.
  split; [|split; [|split]].
  - intros Hlt.
    destruct (Z.ltb_spec 1 (totalPages n)); [|lia].
    destruct (Z.eqb_spec p (totalPages n)); [lia|]. simpl.
    destruct (Z.ltb_spec 1 (totalPages n)); [|lia].
    unfold nextPage, prevPage.
    rewrite (clampPage_id n (Z.min (p + 1) (totalPages n))) by lia.
    destruct (Z.eqb_spec (Z.min (p + 1) (totalPages n)) 1); [lia|]. simpl.
    rewrite clampPage_id by lia. f_equal. lia.
  - intros Hgt.
    destruct (Z.ltb_spec 1 (totalPages n)); [|lia].
    destruct (Z.eqb_spec p 1); [lia|]. simpl.
    destruct (Z.ltb_spec 1 (totalPages n)); [|lia].
    unfold nextPage, prevPage.
    rewrite (clampPage_id n (Z.max (p - 1) 1)) by lia.
    destruct (Z.eqb_spec (Z.max (p - 1) 1) (totalPages n)); [lia|]. simpl.
    rewrite clampPage_id by lia. f_equal. lia.
  - intros i H1 Hi.
    destruct (Z.ltb_spec 1 (totalPages n)); [|lia].
    destruct (Z.ltb_spec (Z.of_nat i) (totalPages n)); [|lia]. simpl.
    unfold gotoPage. by rewrite clampPage_id by lia.
  - intros [n'| | |i]; simpl; [done|..];
      by destruct (_ && _).
Qed.

Lemma pager_clicks_inverse_witness :
  1 <= currentPage (mkPager 13 2) <= totalPages (events_length (mkPager 13 2)) /\
  pagerStep (pagerStep (mkPager 13 2) ClickNext) ClickPrev = mkPager 13 2 /\
  pagerStep (pagerStep (mkPager 13 2) ClickPrev) ClickNext = mkPager 13 2.
Proof.
  assert (H : 1 <= currentPage (mkPager 13 2)
                <= totalPages (events_length (mkPager 13 2)))
    by (vm_compute; split; discriminate).
  split; [done|].
  pose proof (pager_clicks_inverse (mkPager 13 2) H) as (H1 & H2 & _).
  split; [apply H1 | apply H2]; vm_compute; reflexivity.
Defined.

End PagerClicks.

(** ** Login, logout and the password over runs of admin actions *)

Section AdminRuns.

Import Admin Startup.

Implicit Types (s : AdminState) (pass : option string).

Lemma toggleAdmin_password s pass :
  adminPassword (fst (toggleAdmin s pass)) = adminPassword s /\
  admin_config (fst (toggleAdmin s pass)) = admin_config s.
Proof. unfold toggleAdmin. destruct (isAdmin s); repeat case_decide; done. Qed.

(** Logged out, the lock button logs in exactly when the entry is
    the password held by the page, and Cancel raises no alert; logged in,
    it logs out without asking anything; in no case does it change the
    password or the settings document. *)
Lemma login_exactly_with_password :
  (forall s pass, isAdmin s = false ->
     (isAdmin (fst (toggleAdmin s pass)) = true <->
      pass = Some (adminPassword s)) /\
     (pass = None -> alerts (snd (toggleAdmin s pass)) = [])) /\
  (forall s pass, isAdmin s = true ->
     isAdmin (fst (toggleAdmin s pass)) = false /\
     snd (toggleAdmin s pass) = []) /\
  (forall s pass,
     adminPassword (fst (toggleAdmin s pass)) = adminPassword s /\
     admin_config (fst (toggleAdmin s pass)) = admin_config s).
Proof.
  split; [|split; [|apply toggleAdmin_password]].
  - intros s pass Hs. unfold toggleAdmin. rewrite Hs. split.
    + repeat case_decide; simpl; split; congruence.
    + intros ->. by repeat case_decide.
  - intros s pass Hs. unfold toggleAdmin. by rewrite Hs.
Qed.

Lemma falsy_entered (newPass : string) : newPass <> "" -> falsy (Some newPass) = false.
Proof. intros H. simpl. by rewrite decide_False. Qed.

(** X12: an admin who enters a new password twice, logs out and tries to
    log in again gets in with exactly the new password when the store
    accepted the write, and with exactly the old one when it did not. *)
Theorem changed_password_logs_in s (newPass pass : string) (setDoc_ok : bool) :
  isAdmin s = true -> newPass <> "" ->
  (isAdmin (adminRun s [ClickChangePassword (Some newPass) (Some newPass)
                          setDoc_ok;
                        ClickLock None; ClickLock (Some pass)]) = true <->
   pass = if setDoc_ok then newPass else adminPassword s) /\
  admin_config
    (adminRun s [ClickChangePassword (Some newPass) (Some newPass) setDoc_ok])
  = if setDoc_ok then Some newPass else admin_config s.
Proof.
  intros Hs Hne. unfold adminRun. simpl. rewrite Hs.
  unfold handleChangePassword. rewrite falsy_entered by done.
  rewrite decide_False by tauto.
  destruct setDoc_ok; simpl; unfold toggleAdmin; simpl; rewrite Hs; simpl;
    (split; [|done]); case_decide; simpl; split; congruence.
Qed.

Lemma changed_password_logs_in_witness :
  isAdmin (mkAdminState true "admin123" (Some "admin123")) = true /\
  "ramadan" <> "" /\
  (isAdmin (adminRun (mkAdminState true "admin123" (Some "admin123"))
              [ClickChangePassword (Some "ramadan") (Some "ramadan") true;
               ClickLock None; ClickLock (Some "ramadan")]) = true <->
   "ramadan" = "ramadan").
Proof.
  split; [done|]. split; [done|].
  apply (changed_password_logs_in
           (mkAdminState true "admin123" (Some "admin123"))
           "ramadan" "ramadan" true); done.
Defined.

Lemma adminStep_in_sync s a :
  admin_config s = Some (adminPassword s) ->
  admin_config (adminStep s a) = Some (adminPassword (adminStep s a)).
Proof.
  intros H. destruct a as [pass|newPass confirmPass ok]; simpl.
  - by destruct (toggleAdmin_password s pass) as [-> ->].
  - destruct (isAdmin s); [|done]. unfold handleChangePassword.
    destruct (falsy newPass); [done|]. case_decide; [done|].
    by destruct newPass, ok.
Qed.

(** X13: when the settings are read at startup (and created if missing),
    the password the page checks entries against is the one in the
    settings document, and it stays so after any run of logins, logouts
    and password changes, accepted or not. *)
Theorem password_in_sync (settings : option string) (actions : list AdminAction) :
  admin_config (adminRun (mount settings true true) actions) =
    Some (adminPassword (adminRun (mount settings true true) actions)) /\
  (forall password, settings = Some password ->
     adminPassword (mount settings true true) = password) /\
  (settings = None -> admin_config (mount settings true true) = Some "admin123").
Proof.
  split; [|split].
  - unfold adminRun.
    induction actions as [|a actions IH] using rev_ind.
    + simpl. unfold mount, fetchAdminPassword. simpl. by destruct settings.
    + rewrite foldl_snoc. by apply adminStep_in_sync.
  - by intros password ->.
  - by intros ->.
Qed.

(** X14: when the read of the settings is rejected at startup, the page
    keeps checking entries against the default: whatever password the
    settings document holds, the entry admin123 logs in, and the stored
    password itself does not unless it is that default. *)
Theorem rejected_read_accepts_default (settings : option string)
    (setDoc_ok : bool) (pass : string) :
  adminPassword (mount settings false setDoc_ok) = "admin123" /\
  admin_config (mount settings false setDoc_ok) = settings /\
  (isAdmin (fst (toggleAdmin (mount settings false setDoc_ok) (Some pass)))
     = true <-> pass = "admin123").
Proof.
  unfold mount, fetchAdminPassword, toggleAdmin. simpl.
  split; [done|]. split; [done|].
  case_decide; simpl; split; congruence.
Qed.

End AdminRuns.

(** ** The prayer times over the day and over refreshes *)

Section TimingsRuns.

Import Timings Fetch Refreshes.
Local Open Scope Z_scope.

Variable parseTime : string -> Z -> option Z.

Lemma refresh_loaded v r : loadingTimings (refresh parseTime v r) = false.
Proof. reflexivity. Qed.

Lemma refresh_failed v r :
  refreshFailed r -> timings (refresh parseTime v r) = timings v.
Proof. apply fetchTimings_failed. Qed.

Lemma refresh_succeeded v r dataToday dataTomorrow :
  refreshSucceeded r dataToday dataTomorrow ->
  timings (refresh parseTime v r) =
  stored (selectTimings parseTime (r_now r) (r_today r) dataToday dataTomorrow).
Proof. apply fetchTimings_succeeded. Qed.

(** A run either keeps what is stored or stores both boundaries. *)
Lemma refresh_cases v r :
  timings (refresh parseTime v r) = timings v \/
  (is_Some (s_sahri (timings (refresh parseTime v r))) /\
   is_Some (s_iftar (timings (refresh parseTime v r)))).
Proof.
  unfold refresh, fetchTimings. simpl.
  destruct (r_resToday r) as [| |c1 d1], (r_resTomorrow r) as [| |c2 d2];
    try (by left).
  case_decide; [|by left].
  destruct (selected parseTime (r_now r) (r_today r) d1 d2) as [fresh|] eqn:E;
    [|by left].
  right. by eapply selected_both.
Qed.

Lemma refreshes_failed v rs :
  Forall refreshFailed rs ->
  timings (foldl (refresh parseTime) v rs) = timings v.
Proof.
  intros H. revert v. induction H as [|r rs Hr _ IH]; intros v; [done|].
  simpl. rewrite IH. by apply refresh_failed.
Qed.

Lemma refreshes_both_or_neither v rs :
  (s_sahri (timings v) = None <-> s_iftar (timings v) = None) ->
  s_sahri (timings (foldl (refresh parseTime) v rs)) = None <->
  s_iftar (timings (foldl (refresh parseTime) v rs)) = None.
Proof.
  revert v. induction rs as [|r rs IH]; intros v Hv; [done|].
  simpl. apply IH.
  destruct (refresh_cases v r) as [->|[[a Ha] [b Hb]]]; [done|].
  rewrite Ha, Hb. split; congruence.
Qed.

(** X15: after the first load and any number of refreshes, whatever the
    service sent back, the cards never hold one boundary without the
    other, and never stay on the loading dots once a refresh has ended;
    while every refresh has failed both boundaries are empty; and after a
    refresh with two complete successes, followed by any number of failed
    ones, the cards hold the selection that refresh made from its own two
    bodies at its own clock reading; and a refresh before both boundaries
    of its day, with today's body complete and a success for tomorrow,
    leaves today's values on the cards whatever tomorrow's body holds and
    whatever the cards held. *)
Theorem refreshes_show_last_success (rs : list Refresh) :
  (s_sahri (timings (refreshes parseTime rs)) = None <->
   s_iftar (timings (refreshes parseTime rs)) = None) /\
  (rs <> [] -> loadingTimings (refreshes parseTime rs) = false) /\
  (Forall refreshFailed rs ->
     timings (refreshes parseTime rs) = mkStored None None) /\
  (forall rs1 r rs2 dataToday dataTomorrow,
     rs = rs1 ++ r :: rs2 ->
     refreshSucceeded r dataToday dataTomorrow ->
     Forall refreshFailed rs2 ->
     timings (refreshes parseTime rs) =
     stored (selectTimings parseTime (r_now r) (r_today r)
               dataToday dataTomorrow)) /\
  (forall rs1 r dataToday (dataTomorrow : DataObject),
     rs = rs1 ++ [r] ->
     r_resToday r = Body 200 (Some (complete dataToday)) ->
     r_resTomorrow r = Body 200 (Some dataTomorrow) ->
     date_gt (r_now r) (parseTime (Fajr dataToday) (r_today r)) = false ->
     date_gt (r_now r) (parseTime (Maghrib dataToday) (r_today r)) = false ->
     timings (refreshes parseTime rs) =
     mkStored (Some (entry (sahriOf dataToday)))
              (Some (entry (iftarOf dataToday)))).
Proof.
  split; [by apply refreshes_both_or_neither|]. split; [|split; [|split]].
  - unfold refreshes. destruct rs as [|r rs _] using rev_ind; [done|].
    intros _. rewrite foldl_snoc. apply refresh_loaded.
  - intros H. unfold refreshes. by rewrite refreshes_failed.
  - intros rs1 r rs2 dataToday dataTomorrow -> Hs Hf.
    unfold refreshes. rewrite foldl_app. simpl.
    rewrite refreshes_failed by done. by apply refresh_succeeded.
  - intros rs1 r dataToday dataTomorrow -> Ht Hm Hs Hi.
    unfold refreshes. rewrite foldl_snoc. unfold refresh.
    rewrite Ht, Hm. by apply fetchTimings_before_boundaries.
Qed.

(** X16: when today's fasting-start instant is not after today's
    fasting-end instant, the day has three phases: up to the start both
    cards show today's values; after it and up to the end the start card
    shows tomorrow's and the end card today's; after the end both show
    tomorrow's. Today's start is never shown beside tomorrow's end. *)
Theorem three_phases_of_the_day now today dataToday dataTomorrow
    (sahriToday iftarToday : Z) :
  parseTime (Fajr dataToday) today = Some sahriToday ->
  parseTime (Maghrib dataToday) today = Some iftarToday ->
  sahriToday <= iftarToday ->
  (now <= sahriToday /\
   selectTimings parseTime now today dataToday dataTomorrow =
     mkTimingsState (Some (sahriOf dataToday)) (Some (iftarOf dataToday))) \/
  (sahriToday < now <= iftarToday /\
   selectTimings parseTime now today dataToday dataTomorrow =
     mkTimingsState (Some (sahriOf dataTomorrow)) (Some (iftarOf dataToday))) \/
  (iftarToday < now /\
   selectTimings parseTime now today dataToday dataTomorrow =
     mkTimingsState (Some (sahriOf dataTomorrow)) (Some (iftarOf dataTomorrow))).
Proof.
  intros Hs Hi Hle. unfold selectTimings. rewrite Hs, Hi. simpl.
  destruct (Z.ltb_spec sahriToday now), (Z.ltb_spec iftarToday now);
    [right; right|right; left|lia|left]; (split; [lia|done]).
Qed.

(** When a time of today cannot be read as a clock time (an Invalid
    Date), that boundary shows today's value at every instant. *)
Lemma unreadable_time_shows_today now today dataToday dataTomorrow :
  (parseTime (Fajr dataToday) today = None ->
   sahri (selectTimings parseTime now today dataToday dataTomorrow)
     = Some (sahriOf dataToday)) /\
  (parseTime (Maghrib dataToday) today = None ->
   iftar (selectTimings parseTime now today dataToday dataTomorrow)
     = Some (iftarOf dataToday)).
Proof.
  unfold selectTimings. split; intros ->; done.
Qed.

End TimingsRuns.

Lemma three_phases_of_the_day_witness :
  Timings.sampleClock (Timings.Fajr Timings.day1) 0 = Some 17400000%Z /\
  Timings.sampleClock (Timings.Maghrib Timings.day1) 0 = Some 65100000%Z /\
  (17400000 <= 65100000)%Z /\
  Timings.selectTimings Timings.sampleClock 40000000 0 Timings.day1 Timings.day2
  = Timings.mkTimingsState (Some (Timings.sahriOf Timings.day2))
      (Some (Timings.iftarOf Timings.day1)).
Proof.
  split; [reflexivity|]. split; [reflexivity|]. split; [lia|].
  destruct (three_phases_of_the_day Timings.sampleClock 40000000 0
              Timings.day1 Timings.day2 17400000 65100000
              eq_refl eq_refl ltac:(lia)) as [[H _]|[[_ H]|[H _]]];
    [lia|exact H|lia].
Defined.


(** ** The date in the request path *)

Section DateFormatProofs.

Import DateFormat.

Lemma padStart2_two n : n < 100 -> padStart2 (pretty n) = two n.
Proof.
  intros H.
  assert (Hall : forallb (fun n => bool_decide (padStart2 (pretty n) = two n))
                   (seq 0 100) = true)
    by (vm_compute; reflexivity).
  rewrite forallb_forall in Hall.
  specialize (Hall n ltac:(apply in_seq; lia)).
  by apply bool_decide_eq_true in Hall.
Qed.

Lemma untwo_two n : n < 100 -> untwo (two n) = n.
Proof.
  intros H.
  assert (Hall : forallb (fun n => bool_decide (untwo (two n) = n))
                   (seq 0 100) = true)
    by (vm_compute; reflexivity).
  rewrite forallb_forall in Hall.
  specialize (Hall n ltac:(apply in_seq; lia)).
  by apply bool_decide_eq_true in Hall.
Qed.

Lemma padStart2_field n :
  n < 100 ->
  exists a b, padStart2 (pretty n) = String a (String b EmptyString) /\
              digit a * 10 + digit b = n.
Proof.
  intros H. rewrite padStart2_two by done. unfold two.
  eexists _, _. split; [done|]. by apply (untwo_two n).
Qed.

(** X17: the date sent to the prayer-time service is the day of the
    month in two digits, a dash, the month counted from 1 in two digits,
    a dash and the year, in this order (5 March 2026 is sent as
    05-03-2026); and two different dates never give the same text, so the
    requests for today and for tomorrow always differ. *)
Theorem formatDate_day_month_year date month fullYear date' month' fullYear' :
  date <= 31 -> month <= 11 -> date' <= 31 -> month' <= 11 ->
  formatDate date month fullYear =
    two date +:+ "-" +:+ two (month + 1) +:+ "-" +:+ pretty fullYear /\
  untwo (formatDate date month fullYear) = date /\
  formatDate 5 2 2026 = "05-03-2026" /\
  ((date, month, fullYear) <> (date', month', fullYear') ->
   formatDate date month fullYear <> formatDate date' month' fullYear').
Proof.
  intros Hd Hm Hd' Hm'. split; [|split; [|split; [by vm_compute|]]].
  - unfold formatDate. by rewrite !padStart2_two by lia.
  - unfold formatDate.
    destruct (padStart2_field date) as (a & b & -> & Hab); [lia|]. done.
  - intros Hne. unfold formatDate.
    destruct (padStart2_field date) as (a & b & -> & Hab); [lia|].
    destruct (padStart2_field (month + 1)) as (c & e & -> & Hce); [lia|].
    destruct (padStart2_field date') as (a' & b' & -> & Hab'); [lia|].
    destruct (padStart2_field (month' + 1)) as (c' & e' & -> & Hce'); [lia|].
    simpl. intros Heq. simplify_eq/=.
    apply Hne. do 2 f_equal. lia.
Qed.

Lemma formatDate_day_month_year_witness :
  28 <= 31 /\ 1 <= 11 /\ 1 <= 31 /\ 2 <= 11 /\
  formatDate 28 1 2026 = "28-02-2026" /\
  formatDate 28 1 2026 <> formatDate 1 2 2026.
Proof.
  split; [lia|]. split; [lia|]. split; [lia|]. split; [lia|].
  destruct (formatDate_day_month_year 28 1 2026 1 2 2026
              ltac:(lia) ltac:(lia) ltac:(lia) ltac:(lia)) as (H1 & _ & _ & H2).
  split; [rewrite H1; by vm_compute|]. apply H2. discriminate.
Defined.

End DateFormatProofs.
